(** * Retrieval-augmented chat backend: connection registry, vector index
      keys, text splitting guard, retrieval service and the per-turn
      orchestrator.

    The development embeds the Python sources of [backend/app] shallowly.
    Python objects that come from third-party libraries (the WebSocket
    transport, the Chroma collection, the LangChain chain and splitter, the
    SQLAlchemy session) are represented by their interface: the outcome of
    a call that may raise is an explicit argument of the operation that
    performs it. The schemas of [schemas/chat.py] belong to the repository:
    a constructor call is modelled with the keyword arguments it is given
    and fails when a required field is left out.
    Exceptions are values of [exn]; only subclasses of Python's [Exception]
    are represented, so [except Exception] catches every one of them. *)

From stdpp Require Import gmap strings list fin_maps pretty.
From Stdlib Require Import ZArith Ascii String.
From Stdlib Require QArith_base.

Local Open Scope Z_scope.
Local Open Scope string_scope.

(** ** Python outcomes and the state-and-exception monad *)

Module Py.

Inductive exn_class :=
| KeyError
| ValueError
| AttributeError
| RuntimeError
| NameError
| TypeError
| ValidationError
| DuplicateIDError
| WebSocketDisconnect
| WebSocketException.

Record exn := Exn { exn_cls : exn_class; exn_str : string }.

Inductive result (A : Type) :=
| Ret (a : A)
| Raise (e : exn).
Arguments Ret {A} a.
Arguments Raise {A} e.

Definition returns {A} (r : result A) : Prop := ∃ a, r = Ret a.

(** A computation over a mutable state [S]: it yields a value or raises, and
    the mutations performed before a raise persist. *)
Definition M (S A : Type) : Type := S → result A * S.

Definition ret {S A} (a : A) : M S A := λ s, (Ret a, s).
Definition raise {S A} (e : exn) : M S A := λ s, (Raise e, s).
Definition bind {S A B} (m : M S A) (k : A → M S B) : M S B :=
  λ s, match m s with
       | (Ret a, s') => k a s'
       | (Raise e, s') => (Raise e, s')
       end.
Definition lift {S A} (r : result A) : M S A := λ s, (r, s).
Definition gets {S A} (f : S → A) : M S A := λ s, (Ret (f s), s).
Definition modify {S} (f : S → S) : M S unit := λ s, (Ret tt, f s).

(** [try: body  except Exception as e: handler e] *)
Definition try_except {S A} (body : M S A) (handler : exn → M S A) : M S A :=
  λ s, match body s with
       | (Ret a, s') => (Ret a, s')
       | (Raise e, s') => handler e s'
       end.

(** [try: body  finally: fin]; an exception of [fin] replaces the outcome
    of [body]. *)
Definition try_finally {S A} (body : M S A) (fin : M S unit) : M S A :=
  λ s, match body s with
       | (r, s') =>
           match fin s' with
           | (Ret _, s'') => (r, s'')
           | (Raise e, s'') => (Raise e, s'')
           end
       end.

(** [for x in xs: acc = body acc x] *)
Fixpoint for_each {S A B} (xs : list A) (acc : B) (body : B → A → M S B)
  : M S B :=
  match xs with
  | [] => ret acc
  | x :: xs' => bind (body acc x) (λ acc', for_each xs' acc' body)
  end.

(** [[f(x) for x in xs]] where [f] may raise: the first exception ends the
    comprehension. *)
Fixpoint comprehension {A B} (f : A → result B) (xs : list A) : result (list B) :=
  match xs with
  | [] => Ret []
  | x :: xs' =>
      match f x with
      | Raise e => Raise e
      | Ret y =>
          match comprehension f xs' with
          | Raise e => Raise e
          | Ret ys => Ret (y :: ys)
          end
      end
  end.

(** [range(start, stop, step)] for a positive [step]; [stop] iterations are
    enough to reach [stop]. *)
Fixpoint range_from (fuel start stop step : nat) : list nat :=
  match fuel with
  | O => []
  | S fuel' =>
      if (start <? stop)%nat
      then start :: range_from fuel' (start + step) stop step
      else []
  end.

Definition range (start stop step : nat) : list nat :=
  range_from stop start stop step.

(** [s[i:j]] for [0 <= i <= j]; a slice is cut at the end of the text. *)
Definition slice (s : string) (i j : nat) : string :=
  String.substring i (j - i) s.

(** [s[n:]] *)
Fixpoint suffix (n : nat) (s : string) : string :=
  match n, s with
  | O, _ => s
  | S n', EmptyString => EmptyString
  | S n', String _ s' => suffix n' s'
  end.

(** [d[k]] on a dict: raises [KeyError] when the key is absent. *)
Definition getitem `{Countable K} {V} (d : gmap K V) (k : K) : result V :=
  match d !! k with
  | Some v => Ret v
  | None => Raise (Exn KeyError EmptyString)
  end.

(** [k in d] *)
Definition contains `{Countable K} {V} (d : gmap K V) (k : K) : bool :=
  bool_decide (is_Some (d !! k)).

End Py.

#[global] Instance py_ret {S} : MRet (Py.M S) := λ A, Py.ret.
#[global] Instance py_bind {S} : MBind (Py.M S) := λ A B k m, Py.bind m k.

(** ** Connection registry
    [backend/app/api/v1/endpoints/connection_manager.py] *)

Module Registry.
Import Py.

(** The transport handle. What the peer does with a call on it ([accept],
    [close], [send_json]) is supplied to each operation as an outcome. *)
Record WebSocket := { ws_handle : N }.

Record ConnectionManager := {
  active_connections : gmap string WebSocket;
  user_connections : gmap Z (gset string)
}.

(** Records written to the module logger. *)
Inductive LogRecord :=
| InfoNewConnection (connection_id : string) (user_id : Z)
| ErrorAccepting (e : exn)
| WarningClosing (connection_id : string) (e : exn)
| InfoClosed (connection_id : string) (user_id : option Z)
| WarningNonExistent (connection_id : string)
| InfoDisconnectedWhileSending (connection_id : string)
| ErrorSending (connection_id : string) (e : exn).

Record env := {
  manager : ConnectionManager;
  logger : list LogRecord
}.

(** [ConnectionManager.__init__] *)
Definition init : ConnectionManager :=
  {| active_connections := ∅; user_connections := ∅ |}.

Definition start : env := {| manager := init; logger := [] |}.

Definition logged (r : LogRecord) (s : env) : env :=
  {| manager := manager s; logger := logger s ++ [r] |}.

Definition log (r : LogRecord) : M env unit := modify (logged r).

Definition set_active (f : gmap string WebSocket → gmap string WebSocket)
  : M env unit :=
  modify (λ s, {| manager :=
                    {| active_connections := f (active_connections (manager s));
                       user_connections := user_connections (manager s) |};
                  logger := logger s |}).

Definition set_users (f : gmap Z (gset string) → gmap Z (gset string))
  : M env unit :=
  modify (λ s, {| manager :=
                    {| active_connections := active_connections (manager s);
                       user_connections := f (user_connections (manager s)) |};
                  logger := logger s |}).

Definition active : M env (gmap string WebSocket) :=
  gets (λ s, active_connections (manager s)).
Definition users : M env (gmap Z (gset string)) :=
  gets (λ s, user_connections (manager s)).

(** [connect]: [uuid] is the value of [str(uuid.uuid4())] and [accept] the
    outcome of [websocket.accept()]. *)
Definition connect (uuid : string) (accept : result unit)
    (websocket : WebSocket) (user_id : Z) : M env string :=
  let connection_id := uuid in
  try_except
    (lift accept;;
     set_active (λ d, <[connection_id := websocket]> d);;
     ucs ← users;
     (if contains ucs user_id then mret tt
      else set_users (λ d, <[user_id := ∅]> d));;
     ucs ← users;
     conns ← lift (getitem ucs user_id);
     set_users (λ d, <[user_id := conns ∪ {[connection_id]}]> d);;
     log (InfoNewConnection connection_id user_id);;
     mret connection_id)
    (λ e,
       log (ErrorAccepting e);;
       raise (Exn WebSocketException "Failed to establish WebSocket connection")).

(** The loop of [disconnect] that resolves a missing [user_id]: the first
    user, in the iteration order of the dict, whose set holds the id. *)
Definition find_user (ucs : gmap Z (gset string)) (connection_id : string)
  : option Z :=
  (λ r, fst (snd r)) <$>
    list_find (λ p : Z * gset string, connection_id ∈ p.2) (map_to_list ucs).

(** [disconnect]: [close] is the outcome of the transport's [close()]. *)
Definition disconnect (close : result unit)
    (connection_id : string) (user_id : option Z) : M env unit :=
  ucs ← users;
  let user_id :=
    match user_id with
    | None => find_user ucs connection_id
    | Some u => Some u
    end in
  acs ← active;
  (if contains acs connection_id then
     try_finally
       (try_except
          (_ ← lift (getitem acs connection_id); lift close)
          (λ e, log (WarningClosing connection_id e)))
       (set_active (λ d, delete connection_id d))
   else mret tt);;
  ucs ← users;
  (match user_id with
   | Some u =>
       if contains ucs u then
         conns ← lift (getitem ucs u);
         set_users (λ d, <[u := conns ∖ {[connection_id]}]> d);;
         ucs ← users;
         conns ← lift (getitem ucs u);
         if decide (conns = ∅) then
           _ ← lift (getitem ucs u);
           set_users (λ d, delete u d)
         else mret tt
       else mret tt
   | None => mret tt
   end);;
  log (InfoClosed connection_id user_id).

(** [send_message]: [write] is the outcome of [websocket.send_json(message)]
    and [close] the outcome of the [close()] that a failed write leads to. *)
Definition send_message {Payload : Type} (write close : result unit)
    (message : Payload) (connection_id : string) : M env bool :=
  acs ← active;
  if negb (contains acs connection_id) then
    log (WarningNonExistent connection_id);;
    mret false
  else
    websocket ← lift (getitem acs connection_id);
    try_except
      (lift write;; mret true)
      (λ e,
         match exn_cls e with
         | WebSocketDisconnect =>
             log (InfoDisconnectedWhileSending connection_id);;
             disconnect close connection_id None;;
             mret false
         | _ =>
             log (ErrorSending connection_id e);;
             disconnect close connection_id None;;
             mret false
         end).

(** [broadcast_to_user]: the outcomes of the writes and closes are given per
    connection id; the snapshot [list(...)] of the set visits each id once. *)
Definition broadcast_to_user {Payload : Type} (write close : string → result unit)
    (message : Payload) (user_id : Z) : M env nat :=
  ucs ← users;
  if negb (contains ucs user_id) then mret 0%nat
  else
    conns ← lift (getitem ucs user_id);
    for_each (elements conns) 0%nat
      (λ success_count connection_id,
         sent ← send_message (write connection_id) (close connection_id)
                  message connection_id;
         mret (if sent : bool then S success_count else success_count)).

(** [get_user_connections] *)
Definition get_user_connections (m : ConnectionManager) (user_id : Z)
  : list string :=
  elements (default ∅ (user_connections m !! user_id)).

(** [get_connection_count] *)
Definition get_connection_count (m : ConnectionManager) (user_id : option Z)
  : nat :=
  match user_id with
  | Some u => size (default ∅ (user_connections m !! u))
  | None => size (active_connections m)
  end.

(** The connection set recorded for a user, empty when it has no entry. *)
Definition connections_of (m : ConnectionManager) (u : Z) : gset string :=
  default ∅ (user_connections m !! u).

(** Every id in a user's set is a key of the connection map, and no user
    is mapped to an empty set. *)
Definition consistent (m : ConnectionManager) : Prop :=
  ∀ u conns, user_connections m !! u = Some conns →
    conns ≠ ∅ ∧ ∀ cid, cid ∈ conns → is_Some (active_connections m !! cid).

(** No connection id sits in the sets of two users. *)
Definition single_owner (m : ConnectionManager) : Prop :=
  ∀ u1 u2 cid,
    cid ∈ connections_of m u1 → cid ∈ connections_of m u2 → u1 = u2.

(** [cid] is a registered connection that belongs to user [u]. *)
Definition belongs_to (m : ConnectionManager) (cid : string) (u : Z) : Prop :=
  is_Some (active_connections m !! cid) ∧
  ∀ u', cid ∈ connections_of m u' ↔ u' = u.

(** The [user_id] that [disconnect] works with after its lookup loop. *)
Definition resolved (ucs : gmap Z (gset string)) (connection_id : string)
    (user_id : option Z) : option Z :=
  match user_id with
  | None => find_user ucs connection_id
  | Some u => Some u
  end.

(** The user map after [disconnect] has cleaned up the tracking of
    [user_id]. *)
Definition untrack (user_id : option Z) (connection_id : string)
    (ucs : gmap Z (gset string)) : gmap Z (gset string) :=
  match user_id with
  | Some u =>
      match ucs !! u with
      | Some conns =>
          if decide (conns ∖ {[connection_id]} = ∅) then delete u ucs
          else <[u := conns ∖ {[connection_id]}]> ucs
      | None => ucs
      end
  | None => ucs
  end.

(** The registry after [disconnect]. *)
Definition disconnected (close : result unit) (connection_id : string)
    (user_id : option Z) (s : env) : env :=
  let acs := active_connections (manager s) in
  let ucs := user_connections (manager s) in
  let u := resolved ucs connection_id user_id in
  {| manager := {| active_connections := delete connection_id acs;
                   user_connections := untrack u connection_id ucs |};
     logger := logger s
               ++ (if contains acs connection_id then
                     match close with
                     | Raise e => [WarningClosing connection_id e]
                     | Ret _ => []
                     end
                   else [])
               ++ [InfoClosed connection_id u] |}.

(** The registry after a [connect] whose handshake was accepted. *)
Definition connected (connection_id : string) (websocket : WebSocket)
    (user_id : Z) (s : env) : env :=
  let m := manager s in
  {| manager :=
       {| active_connections := <[connection_id := websocket]> (active_connections m);
          user_connections :=
            <[user_id := connections_of m user_id ∪ {[connection_id]}]>
              (user_connections m) |};
     logger := logger s ++ [InfoNewConnection connection_id user_id] |}.

(** The log record of a failed write. *)
Definition write_failure (connection_id : string) (e : exn) : LogRecord :=
  match exn_cls e with
  | WebSocketDisconnect => InfoDisconnectedWhileSending connection_id
  | _ => ErrorSending connection_id e
  end.

(** Both maps are in order. *)
Definition registry_inv (s : env) : Prop :=
  consistent (manager s) ∧ single_owner (manager s).

(** Calls on the registry, each with the outcomes of the transport calls
    it makes. *)
Section Calls.
Variable Payload : Type.

Inductive call :=
| Connect (uuid : string) (accept : result unit) (websocket : WebSocket)
    (user_id : Z)
| Disconnect (close : result unit) (connection_id : string)
    (user_id : option Z)
| Send (write close : result unit) (message : Payload)
    (connection_id : string)
| Broadcast (write close : string → result unit) (message : Payload)
    (user_id : Z).

Definition perform (s : env) (c : call) : env :=
  match c with
  | Connect uuid accept websocket user_id =>
      snd (connect uuid accept websocket user_id s)
  | Disconnect close connection_id user_id =>
      snd (disconnect close connection_id user_id s)
  | Send write close message connection_id =>
      snd (send_message write close message connection_id s)
  | Broadcast write close message user_id =>
      snd (broadcast_to_user write close message user_id s)
  end.

Definition run (cs : list call) (s : env) : env := foldl perform s cs.

(** A call that respects the registry's conventions: [connect] draws an
    id that is not a key of the connection map, and a [disconnect] that
    names a user names the one whose set holds the id, if any does. *)
Definition admissible (m : ConnectionManager) (c : call) : Prop :=
  match c with
  | Connect uuid _ _ _ => active_connections m !! uuid = None
  | Disconnect _ connection_id (Some u) =>
      ∀ u', connection_id ∈ connections_of m u' → u' = u
  | _ => True
  end.

Fixpoint admissible_trace (cs : list call) (s : env) : Prop :=
  match cs with
  | [] => True
  | c :: cs' => admissible (manager s) c ∧ admissible_trace cs' (perform s c)
  end.
End Calls.

End Registry.

(** ** Vector index  [backend/app/core/vector_store.py] *)

Module VectorStore.
Import Py.

Inductive MetaValue :=
| MInt (z : Z)
| MStr (s : string).

(** [langchain_core.documents.Document] *)
Record LangchainDocument := {
  page_content : string;
  metadata : gmap string MetaValue
}.

(** The columns of [models.document.DocumentChunk] that the index reads. *)
Record DocumentChunk := {
  id : Z;
  chunk_index : Z;
  content : string;
  content_hash : string;
  page_number : option Z;
  section_title : option string
}.

(** The Chroma collection behind [self.vector_store]: entries are keyed by
    their id, and writing under an id that is present replaces the entry.
    [persisted] is what [persist()] has written to [persist_directory]. *)
Record Chroma := {
  collection : gmap string LangchainDocument;
  persisted : gmap string LangchainDocument
}.

Definition empty_store : Chroma := {| collection := ∅; persisted := ∅ |}.

(** Number of elements of the index. *)
Definition count (s : Chroma) : nat := size (collection s).

Definition upsert (entries : list (string * LangchainDocument))
    (c : gmap string LangchainDocument) : gmap string LangchainDocument :=
  foldl (λ acc e, <[e.1 := e.2]> acc) c entries.

(** The error of the collection for a batch that repeats an id. *)
Definition duplicate_ids : exn :=
  Exn DuplicateIDError "Expected IDs to be unique".

(** [vector_store.add_documents(documents=..., ids=...)]: the collection
    validates the ids of the batch before it writes; a batch that repeats
    an id is refused and nothing of it is written. *)
Definition store_add_documents (documents : list LangchainDocument)
    (ids : list string) : M Chroma (list string) :=
  if decide (NoDup ids) then
    modify (λ s, {| collection := upsert (zip ids documents) (collection s);
                    persisted := persisted s |});;
    mret ids
  else raise duplicate_ids.

(** [vector_store.persist()] *)
Definition persist : M Chroma unit :=
  modify (λ s, {| collection := collection s; persisted := collection s |}).

Section Manager.
(** [hashlib.sha256(...).hexdigest()] *)
Variable sha256_hexdigest : string → string.

(** [VectorStoreManager.add_documents] *)
Definition add_documents (documents : list LangchainDocument)
    (ids : option (list string)) : M Chroma (list string) :=
  match documents with
  | [] => mret []
  | _ =>
      let ids :=
        match ids with
        | None => (λ doc, sha256_hexdigest (page_content doc)) <$> documents
        | Some ids => ids
        end in
      doc_ids ← store_add_documents documents ids;
      persist;;
      mret doc_ids
  end.

(** The metadata dict built for one chunk. *)
Definition chunk_metadata (document_id : Z) (chunk : DocumentChunk)
  : gmap string MetaValue :=
  let metadata : gmap string MetaValue :=
    <["chunk_index" := MInt (chunk_index chunk)]>
      (<["chunk_id" := MInt (id chunk)]>
         (<["document_id" := MInt document_id]> ∅)) in
  let metadata :=
    match page_number chunk with
    | Some p => <["page_number" := MInt p]> metadata
    | None => metadata
    end in
  match section_title chunk with
  | Some t => if decide (t = EmptyString) then metadata
              else <["section_title" := MStr t]> metadata
  | None => metadata
  end.

(** [f"doc_{document_id}_chunk_{chunk.chunk_index}"] *)
Definition chunk_vector_id (document_id : Z) (chunk : DocumentChunk) : string :=
  "doc_" +:+ pretty document_id +:+ "_chunk_" +:+ pretty (chunk_index chunk).

(** [VectorStoreManager.add_document_chunks] *)
Definition add_document_chunks (chunks : list DocumentChunk) (document_id : Z)
  : M Chroma (list string) :=
  match chunks with
  | [] => mret []
  | _ =>
      let documents :=
        (λ chunk, {| page_content := content chunk;
                     metadata := chunk_metadata document_id chunk |}) <$> chunks in
      let ids := chunk_vector_id document_id <$> chunks in
      add_documents documents (Some ids)
  end.
End Manager.

(** The reading of "the key is derived from the triple": within one
    document, chunks that receive the same key agree on chunk_index and on
    content_hash. *)
Definition key_determines_triple : Prop :=
  ∀ document_id c1 c2,
    chunk_vector_id document_id c1 = chunk_vector_id document_id c2 →
    chunk_index c1 = chunk_index c2 ∧ content_hash c1 = content_hash c2.

End VectorStore.

(** ** Document processor  [backend/app/core/document_processor.py] *)

Module DocumentProcessor.
Import Py.

(** [str.isspace] on the code points below 256. *)
Definition isspace (c : ascii) : bool :=
  let n := nat_of_ascii c in
  ((9 <=? n) && (n <=? 13) || (28 <=? n) && (n <=? 32)
   || (n =? 133) || (n =? 160))%nat.

Fixpoint lstrip (s : string) : string :=
  match s with
  | EmptyString => EmptyString
  | String c s' => if isspace c then lstrip s' else s
  end.

Definition rstrip (s : string) : string := String.rev (lstrip (String.rev s)).

(** [text.strip()] *)
Definition strip (s : string) : string := rstrip (lstrip s).

(** Empty or made of whitespace only. *)
Definition whitespace_only (s : string) : Prop :=
  Forall (λ c, isspace c = true) (list_ascii_of_string s).

Section SplitText.
(** [RecursiveCharacterTextSplitter(chunk_size=..., chunk_overlap=...,
    separators=SEPS, length_function=len).create_documents([text])],
    the constructor's [ValueError] included. *)
Variable Chunk : Type.
Variable recursive_splitter : Z → Z → list string → string → result (list Chunk).

Definition separators : list string :=
  [String "010" (String "010" EmptyString); String "010" EmptyString; " "; EmptyString].

(** [DocumentProcessor.split_text] *)
Definition split_text (text : string) (chunk_size chunk_overlap : Z)
  : result (list Chunk) :=
  if decide (strip text = EmptyString) then Ret []
  else recursive_splitter chunk_size chunk_overlap separators text.
End SplitText.

End DocumentProcessor.

(** ** Retrieval and generation service
    [backend/app/services/rag_service.py] *)

Module Rag.
Import Py VectorStore.

Inductive Embeddings :=
| HuggingFaceInstructEmbeddings
| HuggingFaceEmbeddings.

(** The [RetrievalQA] chain: the retriever's search type and [k]. *)
Record RetrievalQA := {
  search_type : string;
  search_k : nat
}.

Record RAGService := {
  embeddings : Embeddings;
  vector_store : Chroma;
  qa_chain : option RetrievalQA
}.

(** What the chain returns: [result["result"]] and
    [result["source_documents"]]. *)
Record ChainOutput := {
  chain_result : string;
  source_documents : list LangchainDocument
}.

(** One entry of the ["sources"] list of [query]. *)
Record Source := {
  source : MetaValue;
  page : MetaValue;
  source_content : string
}.

(** The dict that [query] returns. *)
Record Answer := {
  answer : string;
  sources : list Source
}.

(** [_initialize_embeddings]: the instruct model, or on any exception the
    standard one. *)
Definition initialize_embeddings (instruct standard : result unit)
  : result Embeddings :=
  match instruct with
  | Ret _ => Ret HuggingFaceInstructEmbeddings
  | Raise _ =>
      match standard with
      | Ret _ => Ret HuggingFaceEmbeddings
      | Raise e => Raise e
      end
  end.

(** [_create_qa_chain] over the retriever of [__init__]. *)
Definition create_qa_chain : RetrievalQA :=
  {| search_type := "similarity"; search_k := 4 |}.

(** [RAGService.__init__]: [instruct], [standard] and [llm] are the outcomes
    of loading the two embedding models and the language model; [store] is
    [vector_store_manager.vector_store]. *)
Definition new (instruct standard llm : result unit) (store : Chroma)
  : result RAGService :=
  match initialize_embeddings instruct standard with
  | Raise e => Raise e
  | Ret emb =>
      match llm with
      | Raise e => Raise e
      | Ret _ =>
          Ret {| embeddings := emb;
                 vector_store := store;
                 qa_chain := Some create_qa_chain |}
      end
  end.

Definition format_source (doc : LangchainDocument) : Source :=
  {| source := default (MStr "Unknown") (metadata doc !! "source");
     page := default (MStr "N/A") (metadata doc !! "page");
     source_content :=
       slice (page_content doc) 0 500 +:+
       (if (500 <? String.length (page_content doc))%nat then "..." else EmptyString) |}.

Section Query.
(** [self.qa_chain({"query": question})]: retrieval over the store and
    generation, or the exception either raises. *)
Variable run_chain : RetrievalQA → Chroma → string → result ChainOutput.

(** [RAGService.query] *)
Definition query (self : RAGService) (question : string) : result Answer :=
  match qa_chain self with
  | None =>
      Raise (Exn ValueError "Please load documents and create vector store first.")
  | Some chain =>
      match run_chain chain (vector_store self) question with
      | Raise e => Raise e
      | Ret result =>
          Ret {| answer := chain_result result;
                 sources := format_source <$> source_documents result |}
      end
  end.
End Query.

(** The index has never been populated. *)
Definition never_populated (s : Chroma) : Prop :=
  collection s = ∅ ∧ persisted s = ∅.

End Rag.

(** ** Conversation orchestrator  [backend/app/api/v1/endpoints/chat.py],
       [backend/app/schemas/chat.py] *)

Module Chat.
Import Py VectorStore.

Inductive ChatMessageType := SYSTEM | USER | ASSISTANT | ERROR | TYPING.

#[global] Instance ChatMessageType_eq_dec : EqDecision ChatMessageType.
Proof. solve_decision. Defined.

(** [schemas.chat.DocumentReference] *)
Record DocumentReference := {
  ref_id : Z;
  ref_title : string;
  ref_snippet : string;
  ref_page_number : option Z;
  ref_score : option QArith_base.Q
}.

(** The [metadata] dicts that chat.py gives to its frames. *)
Inductive FrameMetadata :=
| MetaError
| MetaTitle (title : string)
| MetaSources (sources : option (list DocumentReference))
| MetaStatus (status : string).

(** [schemas.chat.ChatResponse], with the fields of [ChatMessage] and
    [ChatMessageBase]: a validated object. *)
Record ChatResponse := {
  id : string;
  type : ChatMessageType;
  content : string;
  timestamp : Z;
  metadata : option FrameMetadata;
  conversation_id : option Z;
  user_id : option Z;
  is_partial : bool;
  query_id : option Z;
  sources : option (list DocumentReference)
}.

(** The keyword arguments of a call [ChatResponse(...)] of chat.py; [None]
    is an argument that the call leaves out. Every call gives [type],
    [content] and [timestamp], and none gives [user_id]. *)
Record ChatResponseArgs := {
  arg_id : option string;
  arg_type : ChatMessageType;
  arg_content : string;
  arg_timestamp : Z;
  arg_metadata : option FrameMetadata;
  arg_conversation_id : option Z;
  arg_is_partial : option bool;
  arg_query_id : option Z;
  arg_sources : option (list DocumentReference)
}.

(** The error of the validation when [id] is left out:
    [id: str = Field(...)] is a required field of [ChatMessage]. *)
Definition missing_id : exn :=
  Exn ValidationError "1 validation error for ChatResponse: id: field required".

(** [ChatResponse(...)] on the keyword arguments [kw]: the validation
    fails when the required [id] is left out; the arguments that chat.py
    gives have the types the schema asks for, an integer conversation id
    standing for its text. *)
Definition ChatResponse_init (kw : ChatResponseArgs) : result ChatResponse :=
  match arg_id kw with
  | None => Raise missing_id
  | Some i =>
      Ret {| id := i;
             type := arg_type kw;
             content := arg_content kw;
             timestamp := arg_timestamp kw;
             metadata := arg_metadata kw;
             conversation_id := arg_conversation_id kw;
             user_id := None;
             is_partial := default false (arg_is_partial kw);
             query_id := arg_query_id kw;
             sources := arg_sources kw |}
  end.

(** [ChatMessageRequest] *)
Record ChatMessageRequest := {
  message : string;
  req_conversation_id : option Z;
  document_ids : option (list Z);
  temperature : option QArith_base.Q;
  stream : option bool
}.

Record User := { user_ident : Z }.

(** The attributes of a [ConversationModel] row that a turn reads. *)
Record Conversation := {
  conv_id : Z;
  conv_title : string
}.

(** One entry of the ["sources"] list in the metadata of the stored
    assistant message (lines 356-361). *)
Record SourceAttribution := {
  att_document_id : Z;
  att_title : string;
  att_page_number : MetaValue;
  att_source : MetaValue
}.

(** The [metadata] argument of a [MessageModel(...)] call. *)
Inductive MessageMetadata :=
| UserMetadata (document_ids : option (list Z))
    (temperature : option QArith_base.Q)
| AssistantMetadata (query_id : option Z) (sources : list SourceAttribution).

(** The objects that a turn constructs for the session, with the
    arguments of the constructor call. *)
Inductive Row :=
| ConversationRow (user_id : Z) (title : string)
    (document_ids : option (list Z)) (temperature : option QArith_base.Q)
| MessageRow (conversation_id : Z) (role content : string)
    (metadata : MessageMetadata).

(** The calls that a turn makes on the ORM: the query of lines 269-272,
    the constructor of a mapped class, [db.add], [db.commit], [db.refresh]
    and the two attribute assignments of lines 369-375. *)
Inductive DbCall :=
| First (conversation_id user_id : Z)
| New (row : Row)
| Add (row : Row)
| Commit
| Refresh (row : Row)
| Touch (conversation_id updated_at : Z) (last_question : string)
    (document_ids : list Z) (source_count : nat).

(** The state a turn works on: the calls made on the ORM, the frames
    handed to [manager.send_message] with their connection id, and the
    records of [logger.error], each in order. *)
Record State := {
  calls : list DbCall;
  outbox : list (string * ChatResponse);
  errors : list string
}.

(** [await manager.send_message(frame.dict(), connection_id)]; the
    boolean it returns is dropped at every call site. *)
Definition sent (frames : list (string * ChatResponse)) (s : State) : State :=
  {| calls := calls s; outbox := outbox s ++ frames; errors := errors s |}.

Definition send_message (frame : ChatResponse) (connection_id : string)
  : M State unit :=
  modify (sent [(connection_id, frame)]).

Definition logger_error (text : string) : M State unit :=
  modify (λ s, {| calls := calls s; outbox := outbox s;
                  errors := errors s ++ [text] |}).

(** [frame = ChatResponse(...)] followed by
    [await manager.send_message(frame.dict(), connection_id)]. *)
Definition respond (kw : ChatResponseArgs) (connection_id : string)
  : M State unit :=
  frame ← lift (ChatResponse_init kw);
  send_message frame connection_id.

(** Truth value of an optional integer. *)
Definition truthy (z : option Z) : bool :=
  match z with
  | Some n => negb (n =? 0)%Z
  | None => false
  end.

(** [result.get("query_id")]: neither the dict that [RAGService.query]
    returns nor the [result.update] of lines 323-328 has that key. *)
Definition result_query_id (result : Rag.Answer) : option Z := None.

Definition chunk_size : nat := 10.

(** [os.path.basename(...)] at line 336: chat.py does not import [os]. *)
Definition os_path_basename (path : MetaValue) : result string :=
  Raise (Exn NameError "name 'os' is not defined").

(** The dict of lines 356-361 for one reference: [DocumentReference] has
    no field [metadata]. *)
Definition attribution (src : DocumentReference) : result SourceAttribution :=
  Raise (Exn AttributeError
           "'DocumentReference' object has no attribute 'metadata'").

Section Turn.
(** [now] is the reading of the clock, [run_chain] the chain of the
    service, [orm n] the outcome of the call on the ORM that follows [n]
    earlier ones, [found] the row that [first()] returns, [refreshed] the
    new conversation row after [db.refresh], and [validate_reference] the
    validation of [DocumentReference(...)] on the given id,
    title and snippet. *)
Variable now : Z.
Variable run_chain : Rag.RetrievalQA → Chroma → string → result Rag.ChainOutput.
Variable orm : nat → result unit.
Variable found : option Conversation.
Variable refreshed : Conversation.
Variable validate_reference :
  MetaValue → string → string → result DocumentReference.

(** A call on the ORM: it is recorded, and returns or raises. *)
Definition db (c : DbCall) : M State unit :=
  n ← gets (λ s, List.length (calls s));
  modify (λ s, {| calls := calls s ++ [c]; outbox := outbox s;
                  errors := errors s |});;
  lift (orm n).

(** The arguments of the call in [_send_error] (lines 96-102). *)
Definition error_args (text : string) (conversation_id : option Z)
  : ChatResponseArgs :=
  {| arg_id := None; arg_type := ERROR; arg_content := text;
     arg_timestamp := now;
     arg_metadata := Some MetaError;
     arg_conversation_id := conversation_id;
     arg_is_partial := None; arg_query_id := None; arg_sources := None |}.

(** [_send_error] *)
Definition send_error (connection_id : string) (text : string)
    (conversation_id : option Z) : M State unit :=
  respond (error_args text conversation_id) connection_id.

(** The typing indicator (lines 257-262). *)
Definition typing_args (msg : ChatMessageRequest) : ChatResponseArgs :=
  {| arg_id := None; arg_type := TYPING; arg_content := EmptyString;
     arg_timestamp := now;
     arg_metadata := None;
     arg_conversation_id := req_conversation_id msg;
     arg_is_partial := None; arg_query_id := None; arg_sources := None |}.

(** The announcement of a new conversation (lines 292-298). *)
Definition new_conversation_args (conversation : Conversation)
  : ChatResponseArgs :=
  {| arg_id := None; arg_type := SYSTEM;
     arg_content := "New conversation started: " +:+ conv_title conversation;
     arg_timestamp := now;
     arg_metadata := Some (MetaTitle (conv_title conversation));
     arg_conversation_id := Some (conv_id conversation);
     arg_is_partial := None; arg_query_id := None; arg_sources := None |}.

(** The partial frame of the slice that starts at [i] (lines 386-397). *)
Definition partial_args (result : Rag.Answer)
    (sources : list DocumentReference) (conversation : Conversation)
    (i : nat) : ChatResponseArgs :=
  let response_text := Rag.answer result in
  let chunk := slice response_text i (i + chunk_size) in
  {| arg_id := None; arg_type := ASSISTANT; arg_content := chunk;
     arg_timestamp := now;
     arg_metadata :=
       Some (MetaSources
               (if (String.length response_text <=? i + chunk_size)%nat
                then Some sources else None));
     arg_conversation_id := Some (conv_id conversation);
     arg_is_partial := Some true;
     arg_query_id := result_query_id result;
     arg_sources := None |}.

(** The complete frame (lines 403-411 and 416-424). *)
Definition complete_args (result : Rag.Answer)
    (sources : list DocumentReference) (conversation : Conversation)
  : ChatResponseArgs :=
  {| arg_id := None; arg_type := ASSISTANT; arg_content := Rag.answer result;
     arg_timestamp := now;
     arg_metadata := Some (MetaStatus "complete");
     arg_conversation_id := Some (conv_id conversation);
     arg_is_partial := None;
     arg_query_id := result_query_id result;
     arg_sources := Some sources |}.

(** Lines 380-425: delivery of the answer. *)
Definition send_response (stream : option bool) (result : Rag.Answer)
    (sources : list DocumentReference) (conversation : Conversation)
    (connection_id : string) : M State unit :=
  if bool_decide (stream = Some true) then
    let response_text := Rag.answer result in
    for_each (range 0 (String.length response_text) chunk_size) tt
      (λ _ i,
         respond (partial_args result sources conversation i) connection_id);;
    if (String.length response_text mod chunk_size =? 0)%nat then
      respond (complete_args result sources conversation) connection_id
    else mret tt
  else
    respond (complete_args result sources conversation) connection_id.

(** The body of the [try] of lines 333-343 for one source. *)
Definition build_reference (src : Rag.Source) : result DocumentReference :=
  match os_path_basename (Rag.source src) with
  | Raise e => Raise e
  | Ret title =>
      validate_reference (Rag.source src) title (Rag.source_content src)
  end.

(** Lines 331-346: a source whose conversion raises is logged and
    skipped. *)
Definition extract_sources (srcs : list Rag.Source)
  : M State (list DocumentReference) :=
  for_each srcs ([] : list DocumentReference)
    (λ sources src,
       try_except
         (reference ← lift (S:=State) (build_reference src);
          mret (sources ++ [reference])%list)
         (λ e,
            logger_error ("Error processing source: " +:+ exn_str e);;
            mret sources)).

(** Lines 266-299: the conversation of the turn, [None] after the
    "Conversation not found" frame. *)
Definition resolve_conversation (msg : ChatMessageRequest) (user : User)
    (connection_id : string) : M State (option Conversation) :=
  if truthy (req_conversation_id msg) then
    db (First (default 0 (req_conversation_id msg)) (user_ident user));;
    match found with
    | None =>
        send_error connection_id "Conversation not found" None;;
        mret None
    | Some conversation => mret (Some conversation)
    end
  else
    let row := ConversationRow (user_ident user) (slice (message msg) 0 100)
                 (document_ids msg) (temperature msg) in
    db (New row);;
    db (Add row);;
    db Commit;;
    db (Refresh row);;
    let conversation := refreshed in
    respond (new_conversation_args conversation) connection_id;;
    mret (Some conversation).

(** The [try] statement of lines 265-433; [rag_service] is the outcome of
    [RAGService()]. *)
Definition turn (rag_service : result Rag.RAGService)
    (msg : ChatMessageRequest) (user : User) (connection_id : string)
  : M State unit :=
  try_except
    (conversation ← resolve_conversation msg user connection_id;
     match conversation with
     | None => mret tt
     | Some conversation =>
         let user_row :=
           MessageRow (conv_id conversation) "user" (message msg)
             (UserMetadata (document_ids msg) (temperature msg)) in
         db (New user_row);;
         db (Add user_row);;
         db Commit;;
         rag_service ← lift (S:=State) rag_service;
         result ← lift (S:=State) (Rag.query run_chain rag_service (message msg));
         sources ← extract_sources (Rag.sources result);
         attributions ← lift (S:=State) (comprehension attribution sources);
         let assistant_row :=
           MessageRow (conv_id conversation) "assistant" (Rag.answer result)
             (AssistantMetadata (result_query_id result) attributions) in
         db (New assistant_row);;
         db (Add assistant_row);;
         db (Touch (conv_id conversation) now (slice (message msg) 0 200)
               (default [] (document_ids msg)) (List.length sources));;
         db Commit;;
         send_response (stream msg) result sources conversation connection_id
     end)
    (λ e,
       logger_error ("Error processing chat message: " +:+ exn_str e);;
       send_error connection_id
         ("An error occurred while processing your request: " +:+ exn_str e)
         (req_conversation_id msg)).

(** [process_chat_message] *)
Definition process_chat_message (rag_service : result Rag.RAGService)
    (msg : ChatMessageRequest) (user : User) (connection_id : string)
  : M State unit :=
  respond (typing_args msg) connection_id;;
  turn rag_service msg user connection_id.
End Turn.

(** The frames of an outbox go to the registry in order; [writes n] and
    [closes n] are the transport outcomes met by the [n]-th of them. *)
Fixpoint deliver (n : nat) (writes closes : nat → result unit)
    (frames : list (string * ChatResponse)) : M Registry.env (list bool) :=
  match frames with
  | [] => mret []
  | (connection_id, frame) :: frames' =>
      sent ← Registry.send_message (writes n) (closes n) frame connection_id;
      rest ← deliver (S n) writes closes frames';
      mret (sent :: rest)
  end.

(** Lines 315-320 as one outcome: the answer of the service, or the
    exception that its construction or its query raises. *)
Definition pipeline
    (run_chain : Rag.RetrievalQA → Chroma → string → result Rag.ChainOutput)
    (rag_service : result Rag.RAGService) (question : string)
  : result Rag.Answer :=
  match rag_service with
  | Raise e => Raise e
  | Ret service => Rag.query run_chain service question
  end.

(** The computation hands no frame to the connection manager. *)
Definition silent {A} (m : M State A) : Prop :=
  ∀ s, outbox (m s).2 = outbox s.

(** The computation never returns and hands no frame to the connection
    manager. *)
Definition doomed {A} (m : M State A) : Prop :=
  ∀ s, (∃ e, (m s).1 = Raise e) ∧ outbox (m s).2 = outbox s.

End Chat.

(** ** Proof support *)

(** Unfolds the monad's operations in the goal and the hypotheses. *)
Ltac py_unfold :=
  unfold mbind, mret, py_bind, py_ret, Py.bind, Py.ret, Py.raise, Py.lift,
    Py.gets, Py.modify, Py.try_except, Py.try_finally in *.

(** ** Outcomes of transport calls *)

Module Outcome.
Import Py.

(** The call returned. *)
Definition succeeded {A} (r : result A) : bool :=
  match r with
  | Ret _ => true
  | Raise _ => false
  end.

End Outcome.

(** ** Deleting from the vector index
    [backend/app/core/vector_store.py] *)

Module VectorStoreOps.
Import Py VectorStore.

#[global] Instance MetaValue_eq_dec : EqDecision MetaValue.
Proof. solve_decision. Defined.

(** The entry's metadata names the document:
    [{"document_id": {"$eq": document_id}}]. *)
Definition of_document (document_id : Z) (doc : LangchainDocument) : Prop :=
  metadata doc !! "document_id" = Some (MInt document_id).

#[global] Instance of_document_dec document_id doc :
  Decision (of_document document_id doc).
Proof. unfold of_document. apply _. Defined.

(** [vector_store.delete(where=filter_condition)] *)
Definition store_delete (document_id : Z) : M Chroma unit :=
  modify (λ s, {| collection :=
                    filter (λ kv, ¬ of_document document_id kv.2) (collection s);
                  persisted := persisted s |}).

(** [VectorStoreManager.delete_document]: [supported] is the outcome of the
    two [hasattr] tests, [importing], [deleting] and [persisting] are the
    outcomes of the import of [chromadb.QueryBuilder], of the store's
    [delete] and of its [persist]; a call that raises has no effect. *)
Definition delete_document (supported : bool)
    (importing deleting persisting : result unit) (document_id : Z)
  : M Chroma bool :=
  try_except
    (if supported then
       lift importing;;
       lift deleting;;
       store_delete document_id;;
       lift persisting;;
       persist;;
       mret true
     else mret false)
    (λ e, mret false).

End VectorStoreOps.

(** ** File types and document loading
    [backend/app/core/utils.py], [backend/app/core/document_processor.py] *)

Module Ingest.
Import Py VectorStore.

(** [str.lower] on the code points below 256. *)
Definition lower_char (c : ascii) : ascii :=
  let n := nat_of_ascii c in
  if ((65 <=? n) && (n <=? 90) || (192 <=? n) && (n <=? 214)
      || (216 <=? n) && (n <=? 222))%nat
  then ascii_of_nat (n + 32) else c.

Fixpoint lower (s : string) : string :=
  match s with
  | EmptyString => EmptyString
  | String c s' => String (lower_char c) (lower s')
  end.

Definition docx_type : string :=
  "application/vnd.openxmlformats-officedocument.wordprocessingml.document".

(** The dict of [validate_file_extension]. *)
Definition allowed_extensions : gmap string string :=
  <[".docx" := docx_type]>
    (<[".txt" := "text/plain"]> (<[".pdf" := "application/pdf"]> ∅)).

(** The dict of [get_content_type]. *)
Definition content_types : gmap string string :=
  <[".png" := "image/png"]>
    (<[".jpeg" := "image/jpeg"]>
       (<[".jpg" := "image/jpeg"]>
          (<[".docx" := docx_type]>
             (<[".txt" := "text/plain"]>
                (<[".pdf" := "application/pdf"]> ∅))))).

(** The loaders of [load_document]. *)
Inductive Loader := PdfLoader | TextLoader | DocxLoader.

Section Files.
(** [Path(filename).suffix], [os.path.exists], the exception raised for a
    missing file, and the three loaders with the exceptions they may
    raise. *)
Variable path_suffix : string → string.
Variable path_exists : string → bool.
Variable file_not_found : string → exn.
Variable run_loader : Loader → string → result (string * gmap string MetaValue).

(** [get_file_extension] *)
Definition get_file_extension (filename : string) : string :=
  lower (path_suffix filename).

(** [validate_file_extension] *)
Definition validate_file_extension (filename : string) : bool :=
  contains allowed_extensions (get_file_extension filename).

(** [get_content_type] *)
Definition get_content_type (filename : string) : option string :=
  content_types !! get_file_extension filename.

(** The branch of [load_document] for an extension. *)
Definition loader_for (ext : string) : option Loader :=
  if decide (ext = ".pdf") then Some PdfLoader
  else if decide (ext = ".txt") then Some TextLoader
  else if bool_decide (ext ∈ [".docx"; ".doc"]) then Some DocxLoader
  else None.

(** [DocumentProcessor.load_document]; its [except] clause logs and raises
    the exception again. *)
Definition load_document (file_path : string)
  : result (string * gmap string MetaValue) :=
  if negb (path_exists file_path) then Raise (file_not_found file_path)
  else
    let ext := lower (get_file_extension file_path) in
    match loader_for ext with
    | Some loader => run_loader loader file_path
    | None => Raise (Exn ValueError ("Unsupported file type: " +:+ ext))
    end.
End Files.

End Ingest.

(** * Properties *)

#[local] Set Warnings "-clear-no-such-hyp".

Module RegistryFacts.
Import Py Registry.

Lemma contains_true `{Countable K} {V} (d : gmap K V) k :
  contains d k = true ↔ is_Some (d !! k).
Proof. unfold contains. apply bool_decide_eq_true. Qed.

Lemma contains_false `{Countable K} {V} (d : gmap K V) k :
  contains d k = false ↔ d !! k = None.
Proof.
  unfold contains. rewrite bool_decide_eq_false, eq_None_not_Some. done.
Qed.

Lemma getitem_Some `{Countable K} {V} (d : gmap K V) k v :
  d !! k = Some v → getitem d k = Ret v.
Proof. unfold getitem. by intros ->. Qed.

(** [disconnect] always returns, and leaves the registry [disconnected]. *)
Lemma disconnect_run close cid uid s :
  disconnect close cid uid s = (Ret tt, disconnected close cid uid s).
Proof.
  destruct s as [[acs ucs] lg].
  unfold disconnect, disconnected, untrack, users, active, set_active,
    set_users, log, logged, resolved.
  py_unfold. simpl.
  set (u := match uid with None => find_user ucs cid | Some u => Some u end).
  destruct (contains acs cid) eqn:Hin;
    [ apply contains_true in Hin as [ws Hws]; rewrite (getitem_Some _ _ _ Hws)
    | apply contains_false in Hin; rewrite (delete_id _ _ Hin) ];
    destruct close as [[]|e]; simpl;
    (destruct u as [u|]; simpl; [|by rewrite <- ?app_assoc]);
    (destruct (contains ucs u) eqn:Hu;
     [ apply contains_true in Hu as [conns Hc];
       rewrite (getitem_Some _ _ _ Hc), Hc; simpl;
       unfold getitem; rewrite lookup_insert_eq; simpl;
       destruct (decide _); simpl;
       rewrite ?delete_insert_eq, <- ?app_assoc; done
     | apply contains_false in Hu; rewrite Hu; simpl; rewrite <- ?app_assoc; done ]).
Qed.


Lemma connect_run uuid accept ws u s :
  connect uuid accept ws u s =
  match accept with
  | Ret _ => (Ret uuid, connected uuid ws u s)
  | Raise e =>
      (Raise (Exn WebSocketException "Failed to establish WebSocket connection"),
       logged (ErrorAccepting e) s)
  end.
Proof.
  destruct s as [[acs ucs] lg].
  unfold connect, connected, connections_of, users, active, set_active,
    set_users, log, logged.
  py_unfold. simpl.
  destruct accept as [[]|e]; simpl; [|done].
  destruct (contains ucs u) eqn:Hu; simpl.
  - apply contains_true in Hu as [conns Hc].
    rewrite (getitem_Some _ _ _ Hc), Hc. done.
  - apply contains_false in Hu. rewrite Hu. simpl.
    unfold getitem. rewrite lookup_insert_eq. simpl.
    rewrite insert_insert_eq. done.
Qed.

Lemma send_message_run {Payload} write close (msg : Payload) cid s :
  send_message write close msg cid s =
  match active_connections (manager s) !! cid with
  | None => (Ret false, logged (WarningNonExistent cid) s)
  | Some _ =>
      match write with
      | Ret _ => (Ret true, s)
      | Raise e =>
          (Ret false, disconnected close cid None (logged (write_failure cid e) s))
      end
  end.
Proof.
  unfold send_message, active, log, write_failure. py_unfold. simpl.
  destruct (contains _ cid) eqn:Hin; simpl.
  - apply contains_true in Hin as [ws Hws].
    rewrite (getitem_Some _ _ _ Hws), Hws.
    destruct write as [[]|e]; simpl; [done|].
    destruct (exn_cls e); simpl; by rewrite disconnect_run.
  - apply contains_false in Hin. by rewrite Hin.
Qed.


(** *** The lookup loop of [disconnect] *)

Lemma find_user_Some ucs cid u :
  find_user ucs cid = Some u → cid ∈ default ∅ (ucs !! u).
Proof.
  unfold find_user. intros Hf.
  apply fmap_Some in Hf as [[i [u' conns]] [Hf ->]].
  apply list_find_Some in Hf as (Hl & Hin & _). simpl in *.
  apply list_elem_of_lookup_2, elem_of_map_to_list in Hl.
  by rewrite Hl.
Qed.

Lemma find_user_None ucs cid u :
  find_user ucs cid = None → cid ∉ default ∅ (ucs !! u).
Proof.
  unfold find_user. intros Hf.
  apply fmap_None in Hf.
  destruct (ucs !! u) as [conns|] eqn:Hu; simpl; [|set_solver].
  eapply list_find_None, Forall_forall in Hf;
    [|apply elem_of_map_to_list, Hu].
  done.
Qed.

(** The user that [disconnect] cleans up holds the id whenever some user
    does, provided no id has two owners and a named user is the owner. *)
Lemma resolved_owner m cid uid :
  single_owner m →
  (∀ u, uid = Some u → ∀ u', cid ∈ connections_of m u' → u' = u) →
  ∀ u', cid ∈ connections_of m u' →
        resolved (user_connections m) cid uid = Some u'.
Proof.
  intros Hso Hadm u' Hu'. destruct uid as [u|]; simpl.
  - f_equal. symmetry. by apply (Hadm u).
  - destruct (find_user _ cid) as [u|] eqn:Hf.
    + apply find_user_Some in Hf. f_equal. by apply (Hso u u' cid).
    + by apply (find_user_None _ _ u') in Hf.
Qed.

(** *** The user map after the cleanup *)

Lemma connections_untrack (u : option Z) cid ucs u' :
  default ∅ (untrack u cid ucs !! u') =
  if decide (u = Some u') then default ∅ (ucs !! u') ∖ {[cid]}
  else default ∅ (ucs !! u').
Proof.
  unfold untrack. destruct u as [u|]; [|by rewrite decide_False].
  destruct (ucs !! u) as [conns|] eqn:Hu.
  - destruct (decide (conns ∖ {[cid]} = ∅)) as [He|He].
    + destruct (decide (Some u = Some u')) as [[= ->]|Hne].
      * by rewrite lookup_delete_eq, Hu.
      * rewrite lookup_delete_ne; [done|congruence].
    + destruct (decide (Some u = Some u')) as [[= ->]|Hne].
      * by rewrite lookup_insert_eq, Hu.
      * rewrite lookup_insert_ne; [done|congruence].
  - destruct (decide (Some u = Some u')) as [Heq|Hne]; [|done].
    injection Heq as ->. rewrite Hu. simpl. by rewrite empty_difference_L.
Qed.

Lemma untrack_lookup (u : option Z) cid ucs u' conns' :
  untrack u cid ucs !! u' = Some conns' →
  conns' ≠ ∅ ∨ ucs !! u' = Some conns'.
Proof.
  unfold untrack. destruct u as [u|]; [|auto].
  destruct (ucs !! u) as [conns|] eqn:Hu; [|auto].
  destruct (decide (conns ∖ {[cid]} = ∅)) as [He|He].
  - destruct (decide (u = u')) as [->|Hne].
    + by rewrite lookup_delete_eq.
    + rewrite lookup_delete_ne; auto.
  - destruct (decide (u = u')) as [->|Hne].
    + rewrite lookup_insert_eq. intros [= <-]. auto.
    + rewrite lookup_insert_ne; auto.
Qed.

(** *** Preservation of the invariant *)

Lemma logged_inv r s : registry_inv s → registry_inv (logged r s).
Proof. done. Qed.

Lemma disconnected_inv close cid uid s :
  registry_inv s →
  (∀ u, uid = Some u → ∀ u', cid ∈ connections_of (manager s) u' → u' = u) →
  registry_inv (disconnected close cid uid s).
Proof.
  intros [Hc Hso] Hadm.
  pose proof (resolved_owner _ cid uid Hso Hadm) as Hres.
  destruct s as [[acs ucs] lg]. unfold registry_inv, disconnected. simpl in *.
  set (u := resolved ucs cid uid) in *.
  assert (Hsets : ∀ u', connections_of
            {| active_connections := delete cid acs;
               user_connections := untrack u cid ucs |} u' ⊆
            connections_of {| active_connections := acs;
                              user_connections := ucs |} u' ∖ {[cid]}).
  { intros u'. unfold connections_of. simpl. rewrite connections_untrack.
    destruct (decide (u = Some u')) as [Hu|Hu]; [done|].
    intros c Hcin. apply elem_of_difference. split; [done|].
    intros ->%elem_of_singleton. apply Hres in Hcin. congruence. }
  split.
  - intros u' conns' Hl. simpl in *.
    pose proof (Hsets u') as Hsub. unfold connections_of in Hsub.
    simpl in Hsub. rewrite Hl in Hsub. simpl in Hsub.
    split.
    + apply untrack_lookup in Hl as [?|Hl]; [done|]. by apply (Hc u').
    + intros c Hcin. apply Hsub in Hcin.
      apply elem_of_difference in Hcin as [Hcin Hne].
      rewrite lookup_delete_ne by set_solver.
      destruct (ucs !! u') as [conns|] eqn:Hu; simpl in Hcin; [|set_solver].
      by apply (Hc u' conns).
  - intros u1 u2 c H1 H2.
    apply Hsets, elem_of_difference in H1 as [H1 _].
    apply Hsets, elem_of_difference in H2 as [H2 _].
    by apply (Hso u1 u2 c).
Qed.

Lemma consistent_fresh m cid u :
  consistent m → active_connections m !! cid = None →
  cid ∉ connections_of m u.
Proof.
  intros Hc Hnone Hin. unfold connections_of in Hin.
  destruct (user_connections m !! u) as [conns|] eqn:Hu; [|set_solver].
  destruct (Hc u conns Hu) as [_ Hact]. apply Hact in Hin as [? ?]. congruence.
Qed.

Lemma connected_inv cid ws u s :
  registry_inv s → active_connections (manager s) !! cid = None →
  registry_inv (connected cid ws u s).
Proof.
  intros [Hc Hso] Hfresh. split.
  - intros u' conns'. unfold connected. simpl.
    destruct (decide (u = u')) as [->|Hne].
    + rewrite lookup_insert_eq. intros [= <-]. split; [set_solver|].
      intros c [Hin| ->%elem_of_singleton]%elem_of_union.
      * destruct (decide (cid = c)) as [->|?];
          [by rewrite lookup_insert_eq|rewrite lookup_insert_ne by done].
        unfold connections_of in Hin.
        destruct (user_connections (manager s) !! u') eqn:Hu; [|set_solver].
        by apply (Hc u' g).
      * by rewrite lookup_insert_eq.
    + rewrite lookup_insert_ne by done. intros Hl.
      destruct (Hc u' conns' Hl) as [? Hact]. split; [done|].
      intros c Hin. destruct (decide (cid = c)) as [->|?];
        [by rewrite lookup_insert_eq|rewrite lookup_insert_ne by done].
      by apply Hact.
  - assert (Hsets : ∀ u' c, c ∈ connections_of (manager (connected cid ws u s)) u' →
              (c = cid ∧ u' = u) ∨ (c ≠ cid ∧ c ∈ connections_of (manager s) u')).
    { intros u' c. unfold connected, connections_of. simpl.
      destruct (decide (u = u')) as [->|Hne].
      - rewrite lookup_insert_eq. simpl.
        intros [Hin| ->%elem_of_singleton]%elem_of_union; [|auto].
        right. split; [|done]. intros ->.
        by apply (consistent_fresh _ _ u' Hc Hfresh).
      - rewrite lookup_insert_ne by done. intros Hin. right. split; [|done].
        intros ->. by apply (consistent_fresh _ _ u' Hc Hfresh). }
    intros u1 u2 c H1 H2.
    apply Hsets in H1 as [[-> ->]|[Hn1 H1]];
      apply Hsets in H2 as [[? ->]|[Hn2 H2]]; try done.
    by apply (Hso u1 u2 c).
Qed.


Lemma send_message_inv {Payload} write close (msg : Payload) cid s :
  registry_inv s → registry_inv (send_message write close msg cid s).2.
Proof.
  intros Hinv. rewrite send_message_run.
  destruct (active_connections (manager s) !! cid); [|by apply logged_inv].
  destruct write as [[]|e]; simpl; [done|].
  apply disconnected_inv; [by apply logged_inv|done].
Qed.

Lemma for_each_preserves {S A B} (P : S → Prop) (body : B → A → M S B) xs :
  (∀ acc x s, P s → P (body acc x s).2) →
  ∀ acc s, P s → P (for_each xs acc body s).2.
Proof.
  intros Hbody. induction xs as [|x xs IH]; intros acc s Hs; simpl; [done|].
  unfold bind. specialize (Hbody acc x s Hs).
  destruct (body acc x s) as [[acc'|e] s']; simpl in *; [by apply IH|done].
Qed.

Lemma broadcast_inv {Payload} write close (msg : Payload) u s :
  registry_inv s → registry_inv (broadcast_to_user write close msg u s).2.
Proof.
  intros Hinv. unfold broadcast_to_user, users. py_unfold. simpl.
  destruct (contains _ u) eqn:Hu; simpl; [|done].
  apply contains_true in Hu as [conns Hc].
  rewrite (getitem_Some _ _ _ Hc).
  apply (for_each_preserves registry_inv); [|done].
  intros acc cid s' Hs'.
  pose proof (send_message_inv (write cid) (close cid) msg cid s' Hs') as Hsend.
  destruct (send_message _ _ _ _ s') as [[b|e] s'']; done.
Qed.

Lemma perform_inv {Payload} (c : call Payload) s :
  registry_inv s → admissible Payload (manager s) c →
  registry_inv (perform Payload s c).
Proof.
  intros Hinv Hadm. destruct c as [uuid accept ws u|close cid uid| |]; simpl.
  - rewrite connect_run. destruct accept as [[]|e]; simpl.
    + by apply connected_inv.
    + by apply logged_inv.
  - rewrite disconnect_run. simpl. apply disconnected_inv; [done|].
    intros u ->. exact Hadm.
  - by apply send_message_inv.
  - by apply broadcast_inv.
Qed.

Lemma run_inv {Payload} (cs : list (call Payload)) s :
  registry_inv s → admissible_trace Payload cs s →
  registry_inv (run Payload cs s).
Proof.
  revert s. induction cs as [|c cs IH]; intros s Hinv Hadm; simpl; [done|].
  destruct Hadm as [Hc Hcs]. apply IH; [by apply perform_inv|done].
Qed.

Lemma start_inv : registry_inv start.
Proof.
  split.
  - intros u conns. simpl. by rewrite lookup_empty.
  - intros u1 u2 cid. unfold connections_of. simpl.
    rewrite lookup_empty. set_solver.
Qed.


Lemma difference_singleton_empty (X : gset string) x :
  x ∈ X → X ∖ {[x]} = ∅ ↔ X = {[x]}.
Proof.
  intros Hx. split; intros HX.
  - apply set_eq. intros y. rewrite elem_of_singleton. split; [|by intros ->].
    intros Hy. destruct (decide (y = x)) as [|Hne]; [done|].
    assert (y ∈ X ∖ {[x]}) as Hd
      by (apply elem_of_difference; by rewrite elem_of_singleton).
    rewrite HX in Hd. by apply not_elem_of_empty in Hd.
  - rewrite HX. apply difference_diag_L.
Qed.

Lemma belongs_to_resolved m cid u uid :
  belongs_to m cid u → uid = None ∨ uid = Some u →
  resolved (user_connections m) cid uid = Some u.
Proof.
  intros [_ Hown] [-> | ->]; simpl; [|done].
  destruct (find_user _ cid) as [u'|] eqn:Hf.
  - apply find_user_Some in Hf. f_equal. by apply Hown.
  - apply (find_user_None _ _ u) in Hf. destruct Hf. by apply Hown.
Qed.

(** C6. [send_message] never raises. It answers [true] exactly when the
    connection is registered and the write succeeds, and then changes
    nothing; for an unknown connection it leaves both maps alone; after a
    failed write the maps are those that [disconnect] of that connection
    leaves: the id is gone from the connection map (whose size drops by
    one) and, no id having two owners, from the set of every user. *)
Theorem send_message_never_raises {Payload} write close (msg : Payload) cid s :
  let r := send_message write close msg cid s in
  ∃ b : bool,
    r.1 = Ret b ∧
    (b = true ↔ is_Some (active_connections (manager s) !! cid) ∧ write = Ret tt) ∧
    (b = true → r.2 = s) ∧
    (active_connections (manager s) !! cid = None → manager r.2 = manager s) ∧
    (is_Some (active_connections (manager s) !! cid) → ∀ e, write = Raise e →
       manager r.2 = manager (disconnect close cid None s).2 ∧
       active_connections (manager r.2) !! cid = None ∧
       S (get_connection_count (manager r.2) None) =
         get_connection_count (manager s) None ∧
       (single_owner (manager s) → ∀ u, cid ∉ connections_of (manager r.2) u)).
Proof.
  simpl. rewrite send_message_run.
  destruct (active_connections (manager s) !! cid) as [ws|] eqn:Hws.
  - destruct write as [[]|e].
    + exists true. simpl. repeat split; eauto; try done.
    + exists false. simpl. split; [done|]. split; [|split; [done|split; [done|]]].
      { split; [done|]. by intros [_ [=]]. }
      intros _ e' _. rewrite disconnect_run. split; [done|]. simpl.
      split; [apply lookup_delete_eq|]. split.
      * rewrite map_size_delete_Some by eauto.
        assert (size (active_connections (manager s)) ≠ 0%nat);
          [by apply map_size_ne_0_lookup_2 with cid|lia].
      * intros Hso u Hin. unfold connections_of in Hin. simpl in Hin.
        rewrite connections_untrack in Hin.
        destruct (decide _) as [Hu|Hu]; [set_solver|].
        apply Hu. by apply (resolved_owner (manager s) cid None).
  - exists false. simpl. split; [done|]. split; [|done].
    split; [done|]. by intros [[? [=]] _].
Qed.

(** C7. For a registered connection [cid] of user [u], [disconnect],
    called without a user or with [u], returns whatever the transport's
    [close] does and records a close error in the log; afterwards the id is
    in neither map, the entry of [u] is its old set without the id, or is
    gone when that is empty, the other users keep their entries, the count
    of [u] is one less, and a send to the id answers [false]. *)
Theorem disconnect_removes_connection close cid u uid s :
  belongs_to (manager s) cid u →
  uid = None ∨ uid = Some u →
  let r := disconnect close cid uid s in
  r.1 = Ret tt ∧
  active_connections (manager r.2) !! cid = None ∧
  (∀ u', cid ∉ connections_of (manager r.2) u') ∧
  user_connections (manager r.2) !! u =
    (if decide (connections_of (manager s) u = {[cid]}) then None
     else Some (connections_of (manager s) u ∖ {[cid]})) ∧
  (∀ u', u' ≠ u →
     user_connections (manager r.2) !! u' = user_connections (manager s) !! u') ∧
  S (get_connection_count (manager r.2) (Some u)) =
    get_connection_count (manager s) (Some u) ∧
  (∀ Payload write close' (msg : Payload),
     (send_message write close' msg cid r.2).1 = Ret false) ∧
  (∀ e, close = Raise e → WarningClosing cid e ∈ logger r.2).
Proof.
  intros Hb Huid. simpl. rewrite disconnect_run.
  pose proof (belongs_to_resolved _ _ _ _ Hb Huid) as Hres.
  destruct Hb as [[ws Hws] Hown].
  assert (Hin : cid ∈ connections_of (manager s) u) by by apply Hown.
  unfold connections_of in Hin |- *.
  destruct (user_connections (manager s) !! u) as [conns|] eqn:Hu;
    [simpl in Hin|set_solver].
  pose proof (difference_singleton_empty conns cid Hin) as Hempty.
  unfold disconnected. simpl. rewrite Hres. simpl. rewrite Hu.
  split; [done|]. split; [apply lookup_delete_eq|].
  split; [|split; [|split; [|split; [|split]]]].
  - intros u' Hin'.
    pose proof (connections_untrack (Some u) cid (user_connections (manager s)) u')
      as Hc. simpl in Hc. rewrite Hu in Hc. rewrite Hc in Hin'.
    destruct (decide (Some u = Some u')) as [Heq|Hne]; [set_solver|].
    apply Hne. f_equal. symmetry. by apply Hown.
  - destruct (decide (conns ∖ {[cid]} = ∅)) as [He|He].
    + rewrite decide_True by by apply Hempty. apply lookup_delete_eq.
    + rewrite decide_False by by rewrite <- Hempty. apply lookup_insert_eq.
  - intros u' Hne. destruct (decide (conns ∖ {[cid]} = ∅)).
    + by rewrite lookup_delete_ne.
    + by rewrite lookup_insert_ne.
  - assert (Hsz : size (conns ∖ {[cid]}) = (size conns - 1)%nat).
    { rewrite size_difference by set_solver. by rewrite size_singleton. }
    assert (size conns ≠ 0%nat) by (apply size_non_empty_iff; set_solver).
    destruct (decide (conns ∖ {[cid]} = ∅)) as [He|He].
    + rewrite lookup_delete_eq.
      change (S (size (∅ : gset string)) = size conns).
      rewrite He in Hsz. rewrite size_empty in Hsz |- *. lia.
    + rewrite lookup_insert_eq. simpl. lia.
  - intros Payload write close' msg. rewrite send_message_run. simpl.
    by rewrite lookup_delete_eq.
  - intros e ->. unfold contains. rewrite bool_decide_true by eauto.
    set_solver.
Qed.

Lemma disconnect_removes_connection_witness :
  let ws := {| ws_handle := 7 |} in
  let s := (connect "c1" (Ret tt) ws 42 start).2 in
  let r := disconnect (Raise (Exn RuntimeError "closed")) "c1" None s in
  r.1 = Ret tt ∧ get_connection_count (manager s) (Some 42) = 1%nat ∧
  get_connection_count (manager r.2) (Some 42) = 0%nat.
Proof.
  intros ws s r.
  assert (Hb : belongs_to (manager s) "c1" 42).
  { split; [by vm_compute; eauto|].
    intros u'. unfold connections_of, s. rewrite connect_run. simpl.
    unfold connections_of. simpl. rewrite lookup_empty. simpl.
    destruct (decide (u' = 42)) as [->|Hne].
    - rewrite lookup_insert_eq. set_solver.
    - rewrite lookup_insert_ne, lookup_empty by done. set_solver. }
  pose proof (disconnect_removes_connection
                (Raise (Exn RuntimeError "closed")) "c1" 42 None s Hb
                (or_introl eq_refl)) as (H1 & _ & _ & _ & _ & H6 & _).
  split; [exact H1|]. split; [by vm_compute|].
  assert (Hs : get_connection_count (manager s) (Some 42) = 1%nat) by by vm_compute.
  rewrite Hs in H6. subst r. lia.
Defined.

(** C10 as stated fails: a [disconnect] that names a user other than the
    owner removes the id from the connection map and leaves it in the
    owner's set. *)
Lemma disconnect_of_wrong_user_breaks_consistency :
  ¬ consistent
      (manager (run unit [Connect unit "a" (Ret tt) {| ws_handle := 1 |} 1;
                          Disconnect unit (Ret tt) "a" (Some 2)] start)).
Proof.
  intros Hc.
  destruct (Hc 1 {["a"]}) as [_ Hact]; [by vm_compute|].
  destruct (Hact "a") as [ws Hws]; [set_solver|].
  vm_compute in Hws. discriminate.
Qed.

(** C10, amended. From the empty registry, after any sequence of connect,
    disconnect, send and broadcast calls in which every connect draws an id
    that is not a key of the connection map and every disconnect that
    names a user names the owner of the id (if it has one), each id in a
    user's set is a key of the connection map and no user is mapped to an
    empty set. *)
Theorem registry_consistent_after_admissible_calls {Payload}
    (cs : list (call Payload)) :
  admissible_trace Payload cs start →
  consistent (manager (run Payload cs start)).
Proof. intros Hadm. by apply (run_inv cs start start_inv Hadm). Qed.


Lemma registry_consistent_after_admissible_calls_witness :
  let ws := {| ws_handle := 3 |} in
  let failed := Raise (Exn WebSocketDisconnect "gone") : result unit in
  consistent
    (manager
       (run unit
          [Connect unit "a" (Ret tt) ws 1;
           Connect unit "b" (Ret tt) ws 1;
           Send unit failed (Ret tt) tt "a";
           Broadcast unit (λ _, Ret tt) (λ _, failed) tt 1;
           Disconnect unit (Ret tt) "b" (Some 1)] start)).
Proof.
  intros ws failed.
  apply registry_consistent_after_admissible_calls.
  cbv [admissible_trace admissible].
  split; [by vm_compute|]. split; [by vm_compute|].
  split; [done|]. split; [done|]. split; [|done].
  intros u' Hin. unfold connections_of in Hin.
  match type of Hin with
  | _ ∈ default ∅ (user_connections ?m !! _) =>
      assert (Hucs : user_connections m = {[ 1 := {["b"]} ]}) by by vm_compute
  end.
  rewrite Hucs in Hin.
  destruct (decide (u' = 1)) as [->|Hne]; [done|].
  rewrite lookup_singleton_ne in Hin by done.
  by apply not_elem_of_empty in Hin.
Defined.

End RegistryFacts.
(** ** Vector index keys *)

Module VectorStoreFacts.
Import Py VectorStore.
#[local] Set Warnings "-clear-no-such-hyp".

Lemma upsert_union entries (c : gmap string LangchainDocument) :
  upsert entries c = list_to_map (reverse entries) ∪ c.
Proof.
  unfold upsert. revert c.
  induction entries as [|[k v] entries IH]; intros c; simpl.
  - by rewrite (left_id_L ∅ (∪)).
  - rewrite IH, reverse_cons, list_to_map_app. simpl.
    rewrite <- (assoc_L (∪)), <- insert_union_l, (left_id_L ∅ (∪)). done.
Qed.

Lemma upsert_idempotent entries (c : gmap string LangchainDocument) :
  upsert entries (upsert entries c) = upsert entries c.
Proof.
  rewrite !upsert_union, (assoc_L (∪)), (idemp_L (∪)). done.
Qed.

(** The key of a chunk is a function of [document_id] and [chunk_index],
    and of nothing else. *)
Lemma chunk_vector_id_inj document_id c1 c2 :
  chunk_vector_id document_id c1 = chunk_vector_id document_id c2 ↔
  chunk_index c1 = chunk_index c2.
Proof.
  unfold chunk_vector_id. split; [|by intros ->].
  intros Heq. do 3 apply String.app_inj in Heq.
  by apply pretty_Z_inj in Heq.
Qed.

(** The ids of a batch repeat exactly when its chunk indices do. *)
Lemma chunk_ids_NoDup document_id (chunks : list DocumentChunk) :
  NoDup (chunk_vector_id document_id <$> chunks) ↔
  NoDup (chunk_index <$> chunks).
Proof.
  induction chunks as [|c chunks IH]; [split; constructor|].
  rewrite !fmap_cons, !NoDup_cons, IH.
  assert (chunk_vector_id document_id c ∈ chunk_vector_id document_id <$> chunks
          ↔ chunk_index c ∈ chunk_index <$> chunks) as ->; [|done].
  rewrite !list_elem_of_fmap. split.
  - intros (c' & Heq & Hin). exists c'. split; [|done].
    by apply chunk_vector_id_inj in Heq.
  - intros (c' & Heq & Hin). exists c'. split; [|done].
    by apply chunk_vector_id_inj.
Qed.

Lemma chunk_ids_same_index document_id (chunks chunks' : list DocumentChunk) :
  chunk_index <$> chunks' = chunk_index <$> chunks →
  chunk_vector_id document_id <$> chunks'
  = chunk_vector_id document_id <$> chunks.
Proof.
  intros Heq.
  assert (Hid : ∀ l : list DocumentChunk,
            chunk_vector_id document_id <$> l
            = (λ i, "doc_" +:+ pretty document_id +:+ "_chunk_" +:+ pretty i)
                <$> (chunk_index <$> l)).
  { intros l. by rewrite <- list_fmap_compose. }
  by rewrite !Hid, Heq.
Qed.

(** The entries that [add_document_chunks] writes. *)
Lemma chunk_entries document_id (chunks : list DocumentChunk) :
  zip (chunk_vector_id document_id <$> chunks)
      ((λ chunk, {| page_content := content chunk;
                    metadata := chunk_metadata document_id chunk |}) <$> chunks)
  = (λ chunk, (chunk_vector_id document_id chunk,
               {| page_content := content chunk;
                  metadata := chunk_metadata document_id chunk |})) <$> chunks.
Proof.
  induction chunks as [|c chunks IH]; [done|].
  rewrite !fmap_cons. cbn [zip_with]. by rewrite IH.
Qed.

(** A batch of chunks with pairwise different indices is written and
    persisted. *)
Lemma add_document_chunks_run sha chunks document_id s :
  NoDup (chunk_index <$> chunks) →
  add_document_chunks sha chunks document_id s =
  match chunks with
  | [] => (Ret [], s)
  | _ =>
      let docs := (λ chunk, {| page_content := content chunk;
                               metadata := chunk_metadata document_id chunk |})
                    <$> chunks in
      let ids := chunk_vector_id document_id <$> chunks in
      let c := upsert (zip ids docs) (collection s) in
      (Ret ids, {| collection := c; persisted := c |})
  end.
Proof.
  intros Hnd. destruct chunks as [|c chunks]; [done|].
  apply (chunk_ids_NoDup document_id) in Hnd.
  unfold add_document_chunks, add_documents, store_add_documents.
  cbn [fmap list_fmap]. cbn [fmap list_fmap] in Hnd.
  rewrite decide_True by done. done.
Qed.

(** A batch that repeats a chunk index is refused, and nothing changes. *)
Lemma add_document_chunks_refused sha chunks document_id s :
  ¬ NoDup (chunk_index <$> chunks) →
  add_document_chunks sha chunks document_id s = (Raise duplicate_ids, s).
Proof.
  intros Hnd. destruct chunks as [|c chunks]; [destruct Hnd; constructor|].
  rewrite <- (chunk_ids_NoDup document_id) in Hnd.
  unfold add_document_chunks, add_documents, store_add_documents.
  cbn [fmap list_fmap]. cbn [fmap list_fmap] in Hnd.
  rewrite decide_False by done. done.
Qed.

Lemma add_document_chunks_collection sha chunks document_id s :
  NoDup (chunk_index <$> chunks) →
  collection (add_document_chunks sha chunks document_id s).2 =
  list_to_map
    (reverse ((λ chunk, (chunk_vector_id document_id chunk,
                         {| page_content := content chunk;
                            metadata := chunk_metadata document_id chunk |}))
                <$> chunks))
  ∪ collection s.
Proof.
  intros Hnd. rewrite add_document_chunks_run by done.
  destruct chunks as [|c chunks].
  - simpl. by rewrite (left_id_L ∅ (∪)).
  - cbv zeta. cbn [snd collection]. by rewrite chunk_entries, upsert_union.
Qed.

(** The keys of the entries of a batch. *)
Lemma chunk_entries_keys document_id (chunks : list DocumentChunk) :
  (reverse ((λ chunk, (chunk_vector_id document_id chunk,
                       {| page_content := content chunk;
                          metadata := chunk_metadata document_id chunk |}))
              <$> chunks)).*1
  = reverse (chunk_vector_id document_id <$> chunks).
Proof. by rewrite <- !fmap_reverse, <- list_fmap_compose. Qed.

(** After a batch is written, each of its chunks is found under its id. *)
Lemma add_document_chunks_written sha chunks document_id s chunk :
  NoDup (chunk_index <$> chunks) →
  chunk ∈ chunks →
  collection (add_document_chunks sha chunks document_id s).2
    !! chunk_vector_id document_id chunk
  = Some {| page_content := content chunk;
            metadata := chunk_metadata document_id chunk |}.
Proof.
  intros Hnd Hin. rewrite add_document_chunks_collection by done.
  apply lookup_union_Some_l. apply elem_of_list_to_map.
  - rewrite chunk_entries_keys, reverse_Permutation.
    by apply chunk_ids_NoDup.
  - apply elem_of_reverse, list_elem_of_fmap. by exists chunk.
Qed.

(** Every other key keeps its entry. *)
Lemma add_document_chunks_frame sha chunks document_id s k :
  NoDup (chunk_index <$> chunks) →
  k ∉ chunk_vector_id document_id <$> chunks →
  collection (add_document_chunks sha chunks document_id s).2 !! k
  = collection s !! k.
Proof.
  intros Hnd Hk. rewrite add_document_chunks_collection by done.
  apply lookup_union_r, not_elem_of_list_to_map.
  rewrite chunk_entries_keys, elem_of_reverse. done.
Qed.

(** The keys of the index after a batch is written. *)
Lemma add_document_chunks_dom sha chunks document_id s :
  NoDup (chunk_index <$> chunks) →
  dom (collection (add_document_chunks sha chunks document_id s).2)
  = list_to_set (chunk_vector_id document_id <$> chunks) ∪ dom (collection s).
Proof.
  intros Hnd. rewrite add_document_chunks_collection by done.
  rewrite dom_union_L, dom_list_to_map_L, chunk_entries_keys.
  f_equal. apply set_eq. intros k.
  by rewrite !elem_of_list_to_set, elem_of_reverse.
Qed.

(** C1 as stated fails: two chunks of one document with the same
    chunk_index and different content hashes are given the same key, so the
    key is not derived from content_hash. *)
Lemma key_ignores_content_hash : ¬ key_determines_triple.
Proof.
  intros Hkey.
  destruct (Hkey 7
              {| id := 1; chunk_index := 0; content := "alpha";
                 content_hash := "aa"; page_number := None;
                 section_title := None |}
              {| id := 2; chunk_index := 0; content := "beta";
                 content_hash := "bb"; page_number := None;
                 section_title := None |}) as [_ Hhash];
    [by apply chunk_vector_id_inj|].
  discriminate Hhash.
Qed.

(** C1, amended. The id assigned to a chunk is the text
    doc_<document_id>_chunk_<chunk_index>: within a document two chunks get
    the same id exactly when they have the same chunk_index, whatever their
    content hashes. Upserting chunks with pairwise different chunk_index
    returns their ids, stores each chunk's content and metadata under its
    id, leaves every other key as it was and persists the index. Upserting
    the same chunks a second time returns the same ids and leaves the index
    as it is. Upserting chunks with the same indices and any content
    overwrites the entries in place: the ids are the same, the element
    count does not change and the entries hold the new content. A batch
    that repeats a chunk_index is refused by the index and writes
    nothing. *)
Theorem add_document_chunks_idempotent sha chunks chunks' document_id s :
  let ids := chunk_vector_id document_id <$> chunks in
  let entry := λ chunk, {| page_content := content chunk;
                           metadata := chunk_metadata document_id chunk |} in
  let r1 := add_document_chunks sha chunks document_id s in
  (∀ c1 c2, chunk_vector_id document_id c1 = chunk_vector_id document_id c2 ↔
            chunk_index c1 = chunk_index c2) ∧
  (NoDup (chunk_index <$> chunks) →
     r1.1 = Ret ids ∧
     (∀ chunk, chunk ∈ chunks →
        collection r1.2 !! chunk_vector_id document_id chunk
        = Some (entry chunk)) ∧
     (∀ k, k ∉ ids → collection r1.2 !! k = collection s !! k) ∧
     (chunks ≠ [] → persisted r1.2 = collection r1.2) ∧
     add_document_chunks sha chunks document_id r1.2 = (Ret ids, r1.2) ∧
     (chunk_index <$> chunks' = chunk_index <$> chunks →
        let r2 := add_document_chunks sha chunks' document_id r1.2 in
        r2.1 = Ret ids ∧
        count r2.2 = count r1.2 ∧
        ∀ chunk, chunk ∈ chunks' →
          collection r2.2 !! chunk_vector_id document_id chunk
          = Some (entry chunk))) ∧
  (¬ NoDup (chunk_index <$> chunks) → r1 = (Raise duplicate_ids, s)).
Proof.
  cbv zeta. split; [apply chunk_vector_id_inj|].
  split; [|apply add_document_chunks_refused].
  intros Hnd. split; [|split; [|split; [|split; [|split]]]].
  - rewrite add_document_chunks_run by done. by destruct chunks.
  - intros chunk Hin. by apply add_document_chunks_written.
  - intros k Hk. by apply add_document_chunks_frame.
  - intros Hne. rewrite add_document_chunks_run by done. by destruct chunks.
  - rewrite !add_document_chunks_run by done.
    destruct chunks as [|c chunks]; [done|].
    cbv zeta. cbn [fst snd collection persisted].
    by rewrite upsert_idempotent.
  - intros Hidx.
    assert (Hnd' : NoDup (chunk_index <$> chunks')) by by rewrite Hidx.
    pose proof (chunk_ids_same_index document_id chunks chunks' Hidx) as Hids.
    split; [|split].
    + rewrite (add_document_chunks_run sha chunks') by done.
      rewrite <- Hids. destruct chunks'; [done|done].
    + unfold count. rewrite <- !size_dom.
      rewrite (add_document_chunks_dom sha chunks') by done.
      rewrite (add_document_chunks_dom sha chunks) by done.
      rewrite Hids. f_equal. set_solver.
    + intros chunk Hin. by apply add_document_chunks_written.
Qed.

End VectorStoreFacts.

(** ** Splitting guard *)

Module DocumentProcessorFacts.
Import Py DocumentProcessor.

Lemma lstrip_whitespace_only s : whitespace_only s → lstrip s = EmptyString.
Proof.
  unfold whitespace_only. induction s as [|c s IH]; simpl; [done|].
  intros Hall. apply Forall_cons in Hall as [-> Hall]. by apply IH.
Qed.

Lemma strip_whitespace_only s : whitespace_only s → strip s = EmptyString.
Proof. intros Hs. unfold strip. by rewrite (lstrip_whitespace_only s Hs). Qed.

(** Stripping gives the empty text only for such inputs. *)
Lemma lstrip_empty s : lstrip s = EmptyString → whitespace_only s.
Proof.
  unfold whitespace_only. induction s as [|c s IH]; simpl; [by constructor|].
  destruct (isspace c) eqn:Hc; [|done].
  intros Hs. constructor; [done|by apply IH].
Qed.

(** C8. For every chunk_size and chunk_overlap, and whatever the splitter
    would do with them, [split_text] of an empty or whitespace-only text
    returns the empty list and raises nothing. *)
Theorem split_text_whitespace_only {Chunk}
    (recursive_splitter : Z → Z → list string → string → result (list Chunk))
    text chunk_size chunk_overlap :
  whitespace_only text →
  split_text Chunk recursive_splitter text chunk_size chunk_overlap = Ret [].
Proof.
  intros Hs. unfold split_text.
  by rewrite decide_True by by apply strip_whitespace_only.
Qed.

Lemma split_text_whitespace_only_witness :
  let refusing : Z → Z → list string → string → result (list string) :=
    λ _ _ _ _, Raise (Exn ValueError "Got a larger chunk overlap than chunk size") in
  split_text string refusing (String "009" (String "010" "  ")) 100 200 = Ret [] ∧
  split_text string refusing EmptyString 1000 200 = Ret [].
Proof.
  intros refusing. split.
  - apply (split_text_whitespace_only refusing).
    unfold whitespace_only. simpl. repeat constructor.
  - apply (split_text_whitespace_only refusing). constructor.
Defined.

End DocumentProcessorFacts.

(** ** Retrieval service on an empty index *)

Module RagFacts.
Import Py VectorStore Rag.

(** A service that [__init__] has built always has its chain. *)
Lemma new_has_chain instruct standard llm store svc :
  new instruct standard llm store = Ret svc →
  qa_chain svc = Some create_qa_chain ∧ vector_store svc = store.
Proof.
  unfold new. destruct (initialize_embeddings _ _); [|done].
  destruct llm; [|done]. by intros [= <-].
Qed.

(** The guard of [query] is never taken on a constructed service: the
    outcome of [query] is that of the chain. *)
Lemma query_of_new run_chain instruct standard llm store svc question :
  new instruct standard llm store = Ret svc →
  query run_chain svc question =
  match run_chain create_qa_chain store question with
  | Raise e => Raise e
  | Ret out => Ret {| answer := chain_result out;
                      sources := format_source <$> source_documents out |}
  end.
Proof.
  intros Hnew. apply new_has_chain in Hnew as [Hc Hs].
  unfold query. by rewrite Hc, Hs.
Qed.

(** C3 on the code: over an index that was never populated the service is
    built with its chain, and [query] returns the chain's answer instead of
    raising the not-ready error. *)
Lemma query_on_empty_index_returns :
  let chain : RetrievalQA → Chroma → string → result ChainOutput :=
    λ _ _ _, Ret {| chain_result := "I don't know.";
                    source_documents := [] |} in
  never_populated empty_store ∧
  ∃ svc, new (Ret tt) (Ret tt) (Ret tt) empty_store = Ret svc ∧
         query chain svc "What is a vector index?" =
         Ret {| answer := "I don't know."; sources := [] |}.
Proof.
  intros chain. split; [done|]. eexists. split; [reflexivity|]. reflexivity.
Qed.

End RagFacts.
(** ** Slices and ranges *)

Module PyFacts.
Import Py.

Lemma substring_0_suffix n s : String.substring 0 n s +:+ suffix n s = s.
Proof.
  revert s. induction n as [|n IH]; intros s.
  - by destruct s.
  - destruct s as [|c s]; [done|].
    change (String c (String.substring 0 n s +:+ suffix n s) = String c s).
    by rewrite IH.
Qed.

(** [range(0, stop, step)] is empty for [stop = 0] and starts with [0]
    otherwise. *)
Lemma range_0 stop step :
  range 0 stop step =
  match stop with
  | O => []
  | S n => 0%nat :: range_from n step stop step
  end.
Proof. by destruct stop. Qed.

End PyFacts.
(** ** The orchestrator's frames *)

Module ChatFacts.
Import Py VectorStore Chat.

Lemma respond_raises kw cid s :
  arg_id kw = None → respond kw cid s = (Raise missing_id, s).
Proof.
  intros Hid. unfold respond, ChatResponse_init. rewrite Hid. by py_unfold.
Qed.

Lemma bind_run {A B} (m : M State A) (k : A → M State B) s :
  (m ≫= k) s =
  match m s with
  | (Ret a, s') => k a s'
  | (Raise e, s') => (Raise e, s')
  end.
Proof. done. Qed.

(** *** Computations that hand over no frame *)

Lemma silent_lift {A} (r : result A) : silent (lift r).
Proof. by intros s. Qed.

Lemma doomed_respond kw cid : arg_id kw = None → doomed (respond kw cid).
Proof.
  intros Hid s. rewrite respond_raises by done. split; [by eexists|done].
Qed.

Lemma doomed_bind_l {A B} (m : M State A) (k : A → M State B) :
  doomed m → doomed (m ≫= k).
Proof.
  intros Hm s. rewrite bind_run. destruct (Hm s) as [[e He] Ho].
  destruct (m s) as [[a|e'] s']; simpl in *; [done|].
  split; [by eexists|done].
Qed.

Lemma doomed_bind_r {A B} (m : M State A) (k : A → M State B) :
  silent m → (∀ a, doomed (k a)) → doomed (m ≫= k).
Proof.
  intros Hm Hk s. rewrite bind_run. specialize (Hm s).
  destruct (m s) as [[a|e] s']; simpl in *.
  - destruct (Hk a s') as [He Ho]. split; [done|]. by rewrite Ho.
  - split; [by eexists|done].
Qed.

Lemma doomed_bind_ret {A B C} (m : M State A) (c : C) (k : C → M State B) :
  silent m → doomed (k c) → doomed ((m ≫= λ _, mret c) ≫= k).
Proof.
  intros Hm Hk s. rewrite !bind_run. specialize (Hm s).
  destruct (m s) as [[a|e] s']; simpl in *.
  - destruct (Hk s') as [He Ho]. split; [done|]. by rewrite Ho.
  - split; [by eexists|done].
Qed.

Section Facts.
Variable now : Z.
Variable run_chain : Rag.RetrievalQA → Chroma → string → result Rag.ChainOutput.
Variable orm : nat → result unit.
Variable found : option Conversation.
Variable refreshed : Conversation.
Variable validate_reference :
  MetaValue → string → string → result DocumentReference.

Lemma db_run c s :
  db orm c s =
  (orm (List.length (calls s)),
   {| calls := calls s ++ [c]; outbox := outbox s; errors := errors s |}).
Proof. done. Qed.

Lemma silent_db c : silent (db orm c).
Proof. by intros s. Qed.

Lemma send_error_raises cid text conversation_id s :
  send_error now cid text conversation_id s = (Raise missing_id, s).
Proof. by apply respond_raises. Qed.

Lemma for_each_cons {A B} (x : A) (xs : list A) (acc : B)
    (body : B → A → M State B) s :
  for_each (x :: xs) acc body s =
  match body acc x s with
  | (Ret acc', s') => for_each xs acc' body s'
  | (Raise e, s') => (Raise e, s')
  end.
Proof. done. Qed.

(** No source is converted: each one is logged and skipped. *)
Lemma extract_sources_run srcs s :
  extract_sources validate_reference srcs s =
  (Ret [],
   {| calls := calls s; outbox := outbox s;
      errors := errors s
                ++ replicate (List.length srcs)
                     "Error processing source: name 'os' is not defined" |}).
Proof.
  unfold extract_sources. revert s.
  induction srcs as [|src srcs IH]; intros s.
  - simpl. unfold ret. rewrite app_nil_r. by destruct s.
  - rewrite for_each_cons.
    assert (Hstep :
      try_except
        (reference ← lift (S:=State) (build_reference validate_reference src);
         mret ([] ++ [reference])%list)
        (λ e, logger_error ("Error processing source: " +:+ exn_str e);;
              mret ([] : list DocumentReference)) s
      = (Ret [],
         {| calls := calls s; outbox := outbox s;
            errors := errors s
                      ++ ["Error processing source: name 'os' is not defined"] |}))
      by done.
    cbv beta. rewrite Hstep, IH. cbn [calls outbox errors List.length replicate].
    by rewrite <- app_assoc.
Qed.

Lemma silent_extract_sources srcs : silent (extract_sources validate_reference srcs).
Proof. intros s. by rewrite extract_sources_run. Qed.

(** The delivery block raises at the first frame it builds. *)
Lemma send_response_raises stream result sources conversation cid s :
  send_response now stream result sources conversation cid s
  = (Raise missing_id, s).
Proof.
  unfold send_response. destruct (bool_decide (stream = Some true)).
  - cbv zeta. rewrite bind_run, PyFacts.range_0.
    destruct (String.length (Rag.answer result)) as [|n] eqn:Hlen.
    + cbn [for_each]. unfold ret. simpl. by apply respond_raises.
    + cbn [for_each]. unfold bind at 1. by rewrite respond_raises.
  - by apply respond_raises.
Qed.

Lemma doomed_send_response stream result sources conversation cid :
  doomed (send_response now stream result sources conversation cid).
Proof.
  intros s. rewrite send_response_raises. split; [by eexists|done].
Qed.

Lemma pipeline_bind {B} rag_service question (k : Rag.Answer → M State B) s :
  (service ← lift (S:=State) rag_service;
   result ← lift (S:=State) (Rag.query run_chain service question);
   k result) s
  = match pipeline run_chain rag_service question with
    | Ret result => k result s
    | Raise e => (Raise e, s)
    end.
Proof.
  unfold pipeline. destruct rag_service as [service|e]; [|done].
  rewrite bind_run. unfold lift at 1. rewrite bind_run. unfold lift at 1.
  by destruct (Rag.query run_chain service question).
Qed.

Lemma process_chat_message_raises rag_service msg user cid s :
  process_chat_message now run_chain orm found refreshed validate_reference
    rag_service msg user cid s
  = (Raise missing_id, s).
Proof.
  unfold process_chat_message. rewrite bind_run.
  by rewrite respond_raises.
Qed.

(** The body of the [try] statement never returns and hands over no
    frame. *)
Lemma doomed_resolved rag_service msg conversation cid :
  doomed
    (db orm (New (MessageRow (conv_id conversation) "user" (message msg)
                    (UserMetadata (document_ids msg) (temperature msg))));;
     db orm (Add (MessageRow (conv_id conversation) "user" (message msg)
                    (UserMetadata (document_ids msg) (temperature msg))));;
     db orm Commit;;
     rag_service ← lift (S:=State) rag_service;
     result ← lift (S:=State) (Rag.query run_chain rag_service (message msg));
     sources ← extract_sources validate_reference (Rag.sources result);
     attributions ← lift (S:=State) (comprehension attribution sources);
     db orm (New (MessageRow (conv_id conversation) "assistant"
                    (Rag.answer result)
                    (AssistantMetadata (result_query_id result) attributions)));;
     db orm (Add (MessageRow (conv_id conversation) "assistant"
                    (Rag.answer result)
                    (AssistantMetadata (result_query_id result) attributions)));;
     db orm (Touch (conv_id conversation) now (slice (message msg) 0 200)
               (default [] (document_ids msg)) (List.length sources));;
     db orm Commit;;
     send_response now (stream msg) result sources conversation cid).
Proof.
  repeat (apply doomed_bind_r;
          [first [apply silent_db | apply silent_lift
                 | apply silent_extract_sources]
          | intros ?]).
  apply doomed_send_response.
Qed.

Lemma doomed_body rag_service msg user cid :
  doomed
    (conversation ← resolve_conversation now orm found refreshed msg user cid;
     match conversation with
     | None => mret tt
     | Some conversation =>
         db orm (New (MessageRow (conv_id conversation) "user" (message msg)
                        (UserMetadata (document_ids msg) (temperature msg))));;
         db orm (Add (MessageRow (conv_id conversation) "user" (message msg)
                        (UserMetadata (document_ids msg) (temperature msg))));;
         db orm Commit;;
         rag_service ← lift (S:=State) rag_service;
         result ← lift (S:=State)
                    (Rag.query run_chain rag_service (message msg));
         sources ← extract_sources validate_reference (Rag.sources result);
         attributions ← lift (S:=State) (comprehension attribution sources);
         db orm (New (MessageRow (conv_id conversation) "assistant"
                        (Rag.answer result)
                        (AssistantMetadata (result_query_id result)
                           attributions)));;
         db orm (Add (MessageRow (conv_id conversation) "assistant"
                        (Rag.answer result)
                        (AssistantMetadata (result_query_id result)
                           attributions)));;
         db orm (Touch (conv_id conversation) now (slice (message msg) 0 200)
                   (default [] (document_ids msg)) (List.length sources));;
         db orm Commit;;
         send_response now (stream msg) result sources conversation cid
     end).
Proof.
  unfold resolve_conversation.
  destruct (truthy (req_conversation_id msg)).
  - destruct found as [conversation|].
    + apply doomed_bind_ret; [apply silent_db|].
      apply (doomed_resolved rag_service msg conversation cid).
    + apply doomed_bind_l. apply doomed_bind_r; [apply silent_db|].
      intros _. apply doomed_bind_l. intros s.
      rewrite send_error_raises. split; [by eexists|done].
  - apply doomed_bind_l. cbv zeta.
    repeat (apply doomed_bind_r; [apply silent_db|intros _]).
    apply doomed_bind_l. by apply doomed_respond.
Qed.

(** C2, as the code behaves. Whatever the request, also with streaming
    asked for, [process_chat_message] raises the validation error of the
    missing [id] at its first statement, before the [try]: it does not
    return, it hands no frame to the connection manager, so no partial
    frame, and it changes nothing else. The partial frame of a slice
    (lines 387-397) cannot be built either, for any answer, sources list
    and slice index. *)
Theorem streaming_hands_over_no_frame rag_service msg user cid s :
  let r := process_chat_message now run_chain orm found refreshed
             validate_reference rag_service msg user cid s in
  r.1 = Raise missing_id ∧
  exn_cls missing_id = ValidationError ∧
  outbox r.2 = outbox s ∧
  r.2 = s ∧
  (∀ result sources conversation i,
     ChatResponse_init (partial_args now result sources conversation i)
     = Raise missing_id).
Proof.
  cbv zeta. rewrite process_chat_message_raises. by repeat split.
Qed.

(** C9, as the code behaves. The delivery block of lines 380-425, entered
    with any answer, sources list and conversation, raises the validation
    error of the missing [id] before it hands over a frame and changes
    nothing: in streaming mode for every length of the answer, a multiple
    of ten or not, and in complete mode. The complete frame of lines
    403-411 and 416-424 cannot be built. *)
Theorem complete_frame_is_never_built stream result sources conversation cid s :
  send_response now stream result sources conversation cid s
  = (Raise missing_id, s) ∧
  ChatResponse_init (complete_args now result sources conversation)
  = Raise missing_id.
Proof. split; [apply send_response_raises|done]. Qed.

(** C4, as the code behaves. [process_chat_message] raises at its first
    statement: no object is constructed, nothing is added or committed,
    nothing is logged and no frame is handed over. [_send_error] cannot
    build its frame: it raises and hands over nothing. The [try] statement
    of lines 265-433, for every outcome of the calls it makes, does not
    return: its handler logs the error and then raises from [_send_error],
    and no frame is handed over. When the conversation is found, the calls
    on the ORM succeed and the pipeline fails, the user message is added
    and committed, no assistant message is constructed, and the failure is
    logged. *)
Theorem turn_outcome rag_service msg user cid s :
  let r := process_chat_message now run_chain orm found refreshed
             validate_reference rag_service msg user cid s in
  let t := turn now run_chain orm found refreshed validate_reference
             rag_service msg user cid s in
  (r.1 = Raise missing_id ∧ calls r.2 = calls s ∧ errors r.2 = errors s ∧
   outbox r.2 = outbox s) ∧
  (∀ text conversation_id,
     send_error now cid text conversation_id s = (Raise missing_id, s)) ∧
  (t.1 = Raise missing_id ∧ outbox t.2 = outbox s ∧
   ∃ e, last (errors t.2)
        = Some ("Error processing chat message: " +:+ exn_str e)) ∧
  (∀ conversation e,
     truthy (req_conversation_id msg) = true →
     found = Some conversation →
     (∀ n, orm n = Ret tt) →
     pipeline run_chain rag_service (message msg) = Raise e →
     let user_row :=
       MessageRow (conv_id conversation) "user" (message msg)
         (UserMetadata (document_ids msg) (temperature msg)) in
     calls t.2 =
       (calls s ++ [First (default 0 (req_conversation_id msg))
                      (user_ident user);
                    New user_row; Add user_row; Commit])%list ∧
     errors t.2 =
       (errors s ++ ["Error processing chat message: " +:+ exn_str e])%list).
Proof.
  cbv zeta. split; [|split; [|split]].
  - by rewrite process_chat_message_raises.
  - intros text conversation_id. apply send_error_raises.
  - unfold turn, try_except.
    destruct (doomed_body rag_service msg user cid s) as [[e He] Ho].
    match type of He with
    | ?b.1 = _ => destruct b as [[a|e'] s'] eqn:Hbody
    end; simpl in He, Ho; [done|].
    rewrite bind_run. unfold logger_error at 1, modify.
    rewrite send_error_raises. cbn [fst snd outbox errors].
    split; [done|]. split; [done|]. exists e'. apply last_snoc.
  - intros conversation e Ht Hf Horm Hp.
    assert (Hrun :
      turn now run_chain orm found refreshed validate_reference rag_service
        msg user cid s
      = (Raise missing_id,
         {| calls :=
              (calls s ++ [First (default 0 (req_conversation_id msg))
                             (user_ident user);
                           New (MessageRow (conv_id conversation) "user"
                                  (message msg)
                                  (UserMetadata (document_ids msg)
                                     (temperature msg)));
                           Add (MessageRow (conv_id conversation) "user"
                                  (message msg)
                                  (UserMetadata (document_ids msg)
                                     (temperature msg)));
                           Commit])%list;
            outbox := outbox s;
            errors := (errors s ++ ["Error processing chat message: "
                                    +:+ exn_str e])%list |})).
    { unfold turn, try_except, resolve_conversation. rewrite Ht, Hf.
      rewrite !bind_run, db_run, Horm. unfold mret at 1, py_ret, ret.
      repeat (rewrite bind_run, db_run, Horm).
      rewrite pipeline_bind, Hp, bind_run.
      unfold logger_error at 1, modify.
      rewrite send_error_raises. cbn [fst snd calls errors outbox].
      by rewrite <- !app_assoc. }
    by rewrite Hrun.
Qed.

End Facts.

End ChatFacts.

(** ** More on the connection registry *)

Module RegistryMore.
Import Py Registry Outcome RegistryFacts.

Lemma registry_inv_consistent s : registry_inv s → consistent (manager s).
Proof. by intros [? _]. Qed.

(** X1. An accepted [connect] returns the generated id and registers it
    in both maps, leaving every other id and user as they were; the total
    count grows by one when the id was not a key, and the user's count when
    the id was not in the user's set. A refused handshake raises
    [WebSocketException], logs the cause and leaves both maps unchanged. *)
Theorem connect_registers uuid accept ws u s :
  let r := connect uuid accept ws u s in
  match accept with
  | Ret _ =>
      r.1 = Ret uuid ∧
      active_connections (manager r.2) !! uuid = Some ws ∧
      connections_of (manager r.2) u = connections_of (manager s) u ∪ {[uuid]} ∧
      (∀ cid, cid ≠ uuid →
         active_connections (manager r.2) !! cid =
         active_connections (manager s) !! cid) ∧
      (∀ u', u' ≠ u →
         user_connections (manager r.2) !! u' = user_connections (manager s) !! u') ∧
      (active_connections (manager s) !! uuid = None →
         get_connection_count (manager r.2) None =
         S (get_connection_count (manager s) None)) ∧
      (uuid ∉ connections_of (manager s) u →
         get_connection_count (manager r.2) (Some u) =
         S (get_connection_count (manager s) (Some u)))
  | Raise e =>
      r.1 = Raise (Exn WebSocketException
                     "Failed to establish WebSocket connection") ∧
      manager r.2 = manager s ∧
      logger r.2 = (logger s ++ [ErrorAccepting e])%list
  end.
Proof.
  cbv zeta. rewrite connect_run. destruct accept as [[]|e]; [|done].
  unfold connected, connections_of. cbn [fst snd manager active_connections
    user_connections get_connection_count].
  split; [done|]. split; [apply lookup_insert_eq|].
  split; [by rewrite lookup_insert_eq|].
  split; [by intros cid ?; rewrite lookup_insert_ne|].
  split; [by intros u' ?; rewrite lookup_insert_ne|].
  split.
  - intros Hnew. by apply map_size_insert_None.
  - intros Hnew. rewrite lookup_insert_eq.
    change (size (default ∅ (user_connections (manager s) !! u) ∪ {[uuid]}) =
            S (size (default ∅ (user_connections (manager s) !! u)))).
    rewrite size_union by set_solver. rewrite size_singleton. lia.
Qed.


(** The sets of the users after a cleanup that names the owner. *)
Lemma connections_disconnected close cid uid s u u' :
  resolved (user_connections (manager s)) cid uid = Some u →
  connections_of (manager (disconnected close cid uid s)) u' =
  if decide (u' = u) then connections_of (manager s) u ∖ {[cid]}
  else connections_of (manager s) u'.
Proof.
  intros Hres. unfold disconnected, connections_of. simpl.
  rewrite Hres, connections_untrack.
  destruct (decide (u' = u)) as [->|Hne].
  - by rewrite decide_True.
  - rewrite decide_False; [done|congruence].
Qed.

(** X2. In a consistent registry, registering a connection under an id
    that is not a key and then disconnecting that id, with the user omitted
    or named, gives back both maps as they were. *)
Theorem connect_then_disconnect uuid ws u uid close s :
  consistent (manager s) →
  active_connections (manager s) !! uuid = None →
  uid = None ∨ uid = Some u →
  let s1 := (connect uuid (Ret tt) ws u s).2 in
  let r := disconnect close uuid uid s1 in
  r.1 = Ret tt ∧ manager r.2 = manager s.
Proof.
  intros Hc Hnew Huid. cbv zeta. rewrite connect_run, disconnect_run.
  split; [done|].
  assert (Hfresh : ∀ u', uuid ∉ connections_of (manager s) u')
    by (intros u'; by apply consistent_fresh).
  assert (Hres : resolved (user_connections (manager (connected uuid ws u s)))
                   uuid uid = Some u).
  { destruct Huid as [-> | ->]; [|done]. simpl.
    destruct (find_user _ uuid) as [u'|] eqn:Hf.
    - apply find_user_Some in Hf. f_equal.
      destruct (decide (u' = u)) as [|Hne]; [done|].
      rewrite lookup_insert_ne in Hf by done. by apply Hfresh in Hf.
    - apply (find_user_None _ _ u) in Hf. rewrite lookup_insert_eq in Hf.
      set_solver. }
  destruct s as [[acs ucs] lg]. unfold disconnected.
  cbn [snd manager] in *. rewrite Hres.
  unfold connected, connections_of, untrack in *.
  cbn [manager active_connections user_connections] in *.
  f_equal.
  - by rewrite delete_insert_eq, delete_id.
  - rewrite lookup_insert_eq.
    specialize (Hfresh u). 
    assert (Hset : (default ∅ (ucs !! u) ∪ {[uuid]}) ∖ {[uuid]}
                   = default ∅ (ucs !! u)) by set_solver.
    rewrite Hset.
    destruct (ucs !! u) as [conns|] eqn:Hu; simpl.
    + destruct (Hc u conns Hu) as [Hne _].
      rewrite decide_False by done.
      by rewrite insert_insert_eq, insert_id.
    + rewrite decide_True by done. by rewrite delete_insert_eq, delete_id.
Qed.

Lemma connect_then_disconnect_witness :
  let ws := {| ws_handle := 5 |} in
  let s := (connect "a" (Ret tt) ws 1 start).2 in
  let s1 := (connect "b" (Ret tt) ws 1 s).2 in
  manager (disconnect (Ret tt) "b" None s1).2 = manager s.
Proof.
  intros ws s s1.
  refine (proj2 (connect_then_disconnect "b" ws 1 None (Ret tt) s _ _ _)).
  - apply (registry_inv_consistent s).
    apply (run_inv (Payload := unit) [Connect unit "a" (Ret tt) ws 1] start).
    + apply start_inv.
    + split; [by vm_compute|done].
  - by vm_compute.
  - by left.
Defined.


(** The loop of [broadcast_to_user] over a snapshot [l] of ids that are all
    in the user's set. *)
Lemma broadcast_loop {Payload} write close (msg : Payload) u l :
  NoDup l →
  ∀ acc s,
    registry_inv s →
    (∀ cid, cid ∈ l → cid ∈ connections_of (manager s) u) →
    ∃ s',
      for_each l acc
        (λ success_count connection_id,
           sent ← send_message (write connection_id) (close connection_id)
                    msg connection_id;
           mret (if sent : bool then S success_count else success_count)) s
      = (Ret (acc + List.length
                      (filter (λ cid, succeeded (write cid) = true) l))%nat, s') ∧
      registry_inv s' ∧
      (∀ cid, active_connections (manager s) !! cid = None →
              active_connections (manager s') !! cid = None) ∧
      (∀ cid, cid ∈ l → succeeded (write cid) = false →
              active_connections (manager s') !! cid = None) ∧
      (∀ u', connections_of (manager s') u' =
             if decide (u' = u)
             then connections_of (manager s) u
                  ∖ list_to_set
                      (filter (λ cid, succeeded (write cid) = false) l)
             else connections_of (manager s) u').
Proof.
  induction 1 as [|x l Hx Hnd IH]; intros acc s Hinv Hl.
  - exists s. simpl. split; [by rewrite Nat.add_0_r|]. split; [done|].
    split; [done|]. split; [by intros ? ?%elem_of_nil|].
    intros u'. destruct (decide (u' = u)) as [->|]; [|done].
    by rewrite difference_empty_L.
  - assert (Hxu : x ∈ connections_of (manager s) u) by (apply Hl; left).
    assert (Hact : is_Some (active_connections (manager s) !! x)).
    { unfold connections_of in Hxu.
      destruct (user_connections (manager s) !! u) as [conns|] eqn:Hu;
        [|set_solver].
      by apply (proj1 Hinv u conns Hu). }
    destruct Hact as [ws Hws].
    cbn [for_each]. unfold bind at 1. py_unfold.
    rewrite send_message_run, Hws.
    destruct (write x) as [[]|e] eqn:Hw.
    + destruct (IH (S acc) s Hinv) as (s' & Hrun & Hinv' & Hmono & Hfail & Hsets).
      { intros cid Hcid. apply Hl. by right. }
      exists s'. rewrite Hrun.
      rewrite !filter_cons, Hw. cbn [succeeded].
      rewrite decide_True by done. rewrite decide_False by done.
      split; [f_equal; f_equal; cbn [List.length]; lia|].
      split; [done|]. split; [done|]. split; [|done].
      intros cid [->|Hcid]%elem_of_cons Hf; [by rewrite Hw in Hf|].
      by apply Hfail.
    + set (s1 := disconnected (close x) x None (logged (write_failure x e) s)).
      assert (Hinv1 : registry_inv s1)
        by (apply disconnected_inv; [by apply logged_inv|done]).
      assert (Hres : resolved (user_connections (manager (logged (write_failure x e) s)))
                       x None = Some u).
      { apply (resolved_owner (manager s) x None); [apply Hinv|done|done]. }
      pose proof (λ u', connections_disconnected (close x) x None
                          (logged (write_failure x e) s) u u' Hres) as Hs1.
      fold s1 in Hs1.
      destruct (IH acc s1 Hinv1) as (s' & Hrun & Hinv' & Hmono & Hfail & Hsets).
      { intros cid Hcid. rewrite Hs1, decide_True by done.
        apply elem_of_difference. split; [apply Hl; by right|].
        intros ->%elem_of_singleton. done. }
      exists s'. rewrite Hrun.
      rewrite !filter_cons, Hw. cbn [succeeded].
      rewrite decide_False by done. rewrite decide_True by done.
      split; [done|]. split; [done|].
      assert (Hgone : active_connections (manager s1) !! x = None)
        by apply lookup_delete_eq.
      split; [|split].
      * intros cid Hnone. apply Hmono. unfold s1, disconnected. simpl.
        destruct (decide (x = cid)) as [->|Hne];
          [apply lookup_delete_eq|by rewrite lookup_delete_ne].
      * intros cid [->|Hcid]%elem_of_cons Hf; [by apply Hmono|by apply Hfail].
      * intros u'. rewrite Hsets. destruct (decide (u' = u)) as [->|Hne].
        -- rewrite Hs1, decide_True by done. simpl.
           unfold logged, connections_of. simpl. set_solver.
        -- by rewrite Hs1, decide_False.
Qed.

(** X3. In a registry whose maps are in order, [broadcast_to_user] never
    raises. It returns the number of the user's connections whose write
    succeeded; afterwards the user's set holds exactly those connections,
    the others are gone from the connection map as well, the sets of the
    other users are as before, and the maps are still in order. *)
Theorem broadcast_to_user_outcome {Payload} write close (msg : Payload) u s :
  registry_inv s →
  let r := broadcast_to_user write close msg u s in
  r.1 = Ret (List.length
               (filter (λ cid, succeeded (write cid) = true)
                  (get_user_connections (manager s) u))) ∧
  (∀ cid, cid ∈ connections_of (manager r.2) u ↔
          cid ∈ connections_of (manager s) u ∧ succeeded (write cid) = true) ∧
  (∀ cid, cid ∈ connections_of (manager s) u → succeeded (write cid) = false →
          active_connections (manager r.2) !! cid = None) ∧
  (∀ u', u' ≠ u →
         connections_of (manager r.2) u' = connections_of (manager s) u') ∧
  registry_inv r.2.
Proof.
  intros Hinv. cbv zeta.
  unfold broadcast_to_user, users, get_user_connections. py_unfold.
  cbn [fst snd].
  destruct (contains (user_connections (manager s)) u) eqn:Hu; cbn [negb].
  - apply contains_true in Hu as [conns Hc].
    rewrite (getitem_Some _ _ _ Hc), Hc. cbn [default from_option id].
    destruct (broadcast_loop write close msg u (elements conns)
                (NoDup_elements conns) 0%nat s Hinv)
      as (s' & Hrun & Hinv' & _ & Hfail & Hsets).
    { intros cid Hcid. unfold connections_of. rewrite Hc.
      by apply elem_of_elements. }
    py_unfold. rewrite Hrun. cbn [fst snd]. split; [done|].
    assert (Hconns : connections_of (manager s) u = conns)
      by (unfold connections_of; by rewrite Hc).
    split; [|split; [|split; [|done]]].
    + intros cid. rewrite Hsets, decide_True, Hconns by done.
      rewrite elem_of_difference, elem_of_list_to_set, list_elem_of_filter,
        elem_of_elements.
      destruct (succeeded (write cid)); naive_solver.
    + intros cid Hcid. apply Hfail. apply elem_of_elements. by rewrite <- Hconns.
    + intros u' Hne. by rewrite Hsets, decide_False.
  - apply contains_false in Hu. rewrite Hu. cbn [default from_option].
    rewrite elements_empty. split; [done|].
    assert (Hconns : connections_of (manager s) u = ∅)
      by (unfold connections_of; by rewrite Hu).
    split; [|split; [|done]].
    + intros cid. rewrite Hconns. set_solver.
    + intros cid. rewrite Hconns. set_solver.
Qed.

Lemma broadcast_to_user_outcome_witness :
  let ws := {| ws_handle := 5 |} in
  let s := run unit [Connect unit "a" (Ret tt) ws 1;
                     Connect unit "b" (Ret tt) ws 1] start in
  let write := λ cid : string,
                 if decide (cid = "a") then Ret tt
                 else Raise (Exn WebSocketDisconnect "gone") in
  let r := broadcast_to_user write (λ _, Ret tt) tt 1 s in
  r.1 = Ret 1%nat ∧ registry_inv r.2.
Proof.
  intros ws s write r.
  assert (Hinv : registry_inv s).
  { apply (run_inv (Payload := unit)); [apply start_inv|].
    split; [by vm_compute|]. split; [by vm_compute|done]. }
  destruct (broadcast_to_user_outcome write (λ _, Ret tt) tt 1 s Hinv)
    as (Hret & _ & _ & _ & Hinv').
  split; [|exact Hinv'].
  etrans; [exact Hret|]. by vm_compute.
Defined.

End RegistryMore.

Module RegistryIdem.
Import Py Registry Outcome RegistryFacts.

Lemma disconnected_unowned close cid s u :
  single_owner (manager s) →
  cid ∉ connections_of (manager (disconnected close cid None s)) u.
Proof.
  intros Hso. unfold disconnected, connections_of. cbn [manager user_connections].
  rewrite connections_untrack.
  destruct (decide (resolved (user_connections (manager s)) cid None = Some u))
    as [Hr|Hr]; [set_solver|].
  intros Hin. apply Hr.
  apply (resolved_owner (manager s) cid None Hso); [done|done].
Qed.

(** X4. [disconnect] is idempotent on a registry in which no id has two
    owners: a second [disconnect] of the same id returns without raising,
    does not call [close] again (whatever it would do, nothing about it is
    logged), and leaves both maps as the first call left them. *)
Theorem disconnect_twice close1 close2 cid s :
  single_owner (manager s) →
  let s1 := (disconnect close1 cid None s).2 in
  let r := disconnect close2 cid None s1 in
  r.1 = Ret tt ∧
  manager r.2 = manager s1 ∧
  logger r.2 = (logger s1 ++ [InfoClosed cid None])%list.
Proof.
  intros Hso. cbv zeta. rewrite !disconnect_run. cbn [fst snd].
  split; [done|].
  pose proof (disconnected_unowned close1 cid s) as Hun.
  set (s1 := disconnected close1 cid None s) in *.
  assert (Hact : active_connections (manager s1) !! cid = None).
  { unfold s1, disconnected. cbn [manager active_connections].
    apply lookup_delete_eq. }
  assert (Hres : resolved (user_connections (manager s1)) cid None = None).
  { simpl. destruct (find_user _ cid) as [u|] eqn:Hf; [|done].
    apply find_user_Some in Hf. by apply (Hun u Hso) in Hf. }
  unfold disconnected at 1 2. rewrite Hres.
  cbn [manager active_connections user_connections logger untrack].
  split.
  - destruct (manager s1) as [acs ucs]. cbn [active_connections user_connections] in *.
    f_equal. by apply delete_id.
  - assert (contains (active_connections (manager s1)) cid = false) as ->.
    { unfold contains. apply bool_decide_eq_false. rewrite Hact.
      by intros [? ?]. }
    done.
Qed.

Lemma disconnect_twice_witness :
  let ws := {| ws_handle := 5 |} in
  let s := (connect "c1" (Ret tt) ws 7 start).2 in
  let failing := Raise (Exn RuntimeError "already closed") in
  let s1 := (disconnect (Ret tt) "c1" None s).2 in
  let r := disconnect failing "c1" None s1 in
  r.1 = Ret tt ∧
  manager r.2 = manager s1 ∧
  logger r.2 = (logger s1 ++ [InfoClosed "c1" None])%list.
Proof.
  intros ws s failing.
  apply (disconnect_twice (Ret tt) failing "c1" s).
  unfold s. rewrite connect_run.
  intros u1 u2 cid. unfold connected, connections_of, start, init.
  cbn [manager user_connections snd].
  rewrite lookup_empty. cbn [default from_option].
  destruct (decide (u1 = 7)) as [->|H1]; destruct (decide (u2 = 7)) as [->|H2];
    rewrite ?lookup_insert_eq, ?lookup_insert_ne, ?lookup_empty by done;
    cbn [default from_option]; set_solver.
Defined.

End RegistryIdem.

(** ** More on the vector index *)

Module VectorStoreMore.
Import Py VectorStore VectorStoreOps VectorStoreFacts.
#[local] Set Warnings "-clear-no-such-hyp".

(** X5. [delete_document] never raises. It answers [True] exactly when the
    store supports deletion and the import, the delete and the persist all
    succeed; then the entries of the document, and only those, are gone,
    and the persisted index is the index in memory. When deletion is not
    supported or the import or the delete fails, the store is untouched.
    When only the persist fails it answers [False] although the entries are
    gone from the index in memory. *)
Theorem delete_document_outcome supported importing deleting persisting
    document_id s :
  let r := delete_document supported importing deleting persisting
             document_id s in
  let kept := filter (λ kv, ¬ of_document document_id kv.2) (collection s) in
  ∃ b : bool,
    r.1 = Ret b ∧
    (b = true ↔ supported = true ∧ importing = Ret tt ∧ deleting = Ret tt
                ∧ persisting = Ret tt) ∧
    (b = true → collection r.2 = kept ∧ persisted r.2 = kept) ∧
    (supported = false ∨ (∃ e, importing = Raise e) ∨ (∃ e, deleting = Raise e) →
       r.2 = s) ∧
    (supported = true → importing = Ret tt → deleting = Ret tt →
     ∀ e, persisting = Raise e →
       b = false ∧ collection r.2 = kept ∧ persisted r.2 = persisted s) ∧
    (∀ k doc, kept !! k = Some doc ↔
              collection s !! k = Some doc ∧ ¬ of_document document_id doc).
Proof.
  cbv zeta. unfold delete_document, store_delete, persist. py_unfold.
  assert (Hkept : ∀ k doc,
            filter (λ kv : string * LangchainDocument,
                      ¬ of_document document_id kv.2) (collection s) !! k
            = Some doc ↔
            collection s !! k = Some doc ∧ ¬ of_document document_id doc)
    by (intros k doc; apply map_lookup_filter_Some).
  destruct supported; cbn.
  2:{ exists false. repeat split; try done; naive_solver. }
  destruct importing as [[]|e1]; cbn.
  2:{ exists false. repeat split; try done; naive_solver. }
  destruct deleting as [[]|e2]; cbn.
  2:{ exists false. repeat split; try done; naive_solver. }
  destruct persisting as [[]|e3]; cbn.
  - exists true. repeat split; try done; naive_solver.
  - exists false. repeat split; try done; naive_solver.
Qed.


Lemma chunk_metadata_document_id document_id chunk :
  chunk_metadata document_id chunk !! "document_id" = Some (MInt document_id).
Proof.
  unfold chunk_metadata.
  destruct (section_title chunk) as [t|]; [destruct (decide (t = _))|];
    destruct (page_number chunk);
    repeat (rewrite lookup_insert_ne by done); apply lookup_insert_eq.
Qed.

(** X7. After [add_document_chunks] of chunks with pairwise different
    chunk_index, the index holds under each chunk's id the chunk's content
    and its metadata, which names the document; every other key is as
    before; and when none of the ids was a key the element count has grown
    by the number of chunks. *)
Theorem add_document_chunks_lookup sha chunks document_id s :
  NoDup (chunk_index <$> chunks) →
  let r := add_document_chunks sha chunks document_id s in
  (∀ chunk, chunk ∈ chunks →
     ∃ doc, collection r.2 !! chunk_vector_id document_id chunk = Some doc ∧
            page_content doc = content chunk ∧
            metadata doc = chunk_metadata document_id chunk ∧
            of_document document_id doc) ∧
  (∀ k, (∀ chunk, chunk ∈ chunks → k ≠ chunk_vector_id document_id chunk) →
        collection r.2 !! k = collection s !! k) ∧
  ((∀ chunk, chunk ∈ chunks →
      collection s !! chunk_vector_id document_id chunk = None) →
   count r.2 = (count s + List.length chunks)%nat).
Proof.
  intros Hnd. cbv zeta. unfold count.
  rewrite add_document_chunks_collection by done.
  set (entries := (λ chunk, (chunk_vector_id document_id chunk,
                             {| page_content := content chunk;
                                metadata := chunk_metadata document_id chunk |}))
                    <$> chunks).
  assert (Hkeys : (reverse entries).*1 =
                  reverse (chunk_vector_id document_id <$> chunks))
    by apply chunk_entries_keys.
  assert (Hnd' : NoDup ((reverse entries).*1)).
  { rewrite Hkeys, reverse_Permutation. by apply chunk_ids_NoDup. }
  split; [|split].
  - intros chunk Hin. eexists. split.
    + apply lookup_union_Some_l. apply elem_of_list_to_map; [done|].
      apply elem_of_reverse. unfold entries. apply list_elem_of_fmap.
      by exists chunk.
    + split; [done|]. split; [done|]. apply chunk_metadata_document_id.
  - intros k Hk. apply lookup_union_r. apply not_elem_of_list_to_map.
    rewrite Hkeys. intros (c & -> & Hin)%elem_of_reverse%list_elem_of_fmap.
    by apply (Hk c).
  - intros Hnew. rewrite map_size_disj_union.
    + rewrite map_size_list_to_map by done.
      unfold entries. rewrite length_reverse, length_fmap. lia.
    + apply map_disjoint_spec. intros k d1 d2 H1 H2.
      apply elem_of_list_to_map in H1; [|done].
      apply elem_of_reverse, list_elem_of_fmap in H1 as (c & [= -> _] & Hin).
      rewrite Hnew in H2 by done. done.
Qed.

Lemma add_document_chunks_lookup_witness :
  let c0 := {| id := 1; chunk_index := 0; content := "alpha";
               content_hash := "aa"; page_number := Some 1;
               section_title := None |} in
  let c1 := {| id := 2; chunk_index := 1; content := "beta";
               content_hash := "bb"; page_number := None;
               section_title := Some "Intro" |} in
  count (add_document_chunks (λ s, s) [c0; c1] 7 empty_store).2 = 2%nat.
Proof.
  intros c0 c1.
  refine (proj2 (proj2 (add_document_chunks_lookup (λ s, s) [c0; c1] 7
                          empty_store _)) _).
  - repeat constructor; set_solver.
  - intros chunk _. apply lookup_empty.
Defined.

End VectorStoreMore.

(** ** Lengths of slices *)

Module SliceFacts.
Import Py.

Lemma length_app (a b : string) :
  String.length (a +:+ b) = (String.length a + String.length b)%nat.
Proof.
  induction a as [|c a IH]; [done|].
  change (S (String.length (a +:+ b)) = S (String.length a + String.length b)).
  by rewrite IH.
Qed.

Lemma length_substring_0 n s :
  String.length (String.substring 0 n s) = (n `min` String.length s)%nat.
Proof.
  revert s. induction n as [|n IH]; intros s; [by destruct s|].
  destruct s as [|c s]; [done|]. simpl. by rewrite IH.
Qed.

Lemma substring_0_all n s :
  (String.length s ≤ n)%nat → String.substring 0 n s = s.
Proof.
  revert s. induction n as [|n IH]; intros s Hn.
  - destruct s; [done|simpl in Hn; lia].
  - destruct s as [|c s]; [done|]. simpl in *. rewrite IH; [done|lia].
Qed.

(** [s[:n]] is the text itself when it has at most [n] characters, and
    otherwise its first [n] characters. *)
Lemma slice_0 s n :
  String.length (slice s 0 n) = (n `min` String.length s)%nat ∧
  slice s 0 n +:+ suffix n s = s ∧
  ((String.length s ≤ n)%nat → slice s 0 n = s).
Proof.
  unfold slice. rewrite Nat.sub_0_r. split; [apply length_substring_0|].
  split; [apply PyFacts.substring_0_suffix|apply substring_0_all].
Qed.

End SliceFacts.

(** ** More on the retrieval service *)

Module RagMore.
Import Py VectorStore Rag.

(** X8. In an answer of [query] there is one source per retrieved
    document, in order; the snippet of a source is the document's text when
    that has at most 500 characters, and otherwise its first 500 characters
    followed by three dots, so a snippet never exceeds 503 characters. An
    exception of the chain is the outcome of [query]. *)
Theorem query_snippets run_chain self question :
  match query run_chain self question with
  | Ret result =>
      ∃ chain out,
        qa_chain self = Some chain ∧
        run_chain chain (vector_store self) question = Ret out ∧
        answer result = chain_result out ∧
        List.length (sources result) = List.length (source_documents out) ∧
        ∀ i doc, source_documents out !! i = Some doc →
          ∃ src, sources result !! i = Some src ∧
            let text := page_content doc in
            ((String.length text ≤ 500)%nat → source_content src = text) ∧
            ((500 < String.length text)%nat →
               source_content src = slice text 0 500 +:+ "..." ∧
               String.length (source_content src) = 503%nat) ∧
            (String.length (source_content src) ≤ 503)%nat
  | Raise e =>
      qa_chain self = None ∨
      ∃ chain, qa_chain self = Some chain ∧
               run_chain chain (vector_store self) question = Raise e
  end.
Proof.
  unfold query. destruct (qa_chain self) as [chain|]; [|by left].
  destruct (run_chain chain (vector_store self) question) as [out|e] eqn:Hrun;
    [|right; by exists chain].
  exists chain, out. split; [done|]. split; [done|]. split; [done|].
  cbn [sources]. split; [by rewrite length_fmap|].
  intros i doc Hi. exists (format_source doc).
  split; [by rewrite list_lookup_fmap, Hi|].
  cbv zeta. unfold format_source. cbn [source_content].
  destruct (SliceFacts.slice_0 (page_content doc) 500) as (Hlen & _ & Hall).
  destruct (500 <? String.length (page_content doc))%nat eqn:Hlt.
  - apply Nat.ltb_lt in Hlt. rewrite SliceFacts.length_app, Hlen.
    change (String.length "...") with 3%nat.
    split; [lia|]. split; [|lia]. intros _. split; [done|lia].
  - apply Nat.ltb_ge in Hlt. rewrite SliceFacts.length_app, Hlen.
    change (String.length EmptyString) with 0%nat.
    split; [|split; [lia|lia]].
    intros _. rewrite Hall by done. clear. 
    induction (page_content doc) as [|c s IH]; [done|].
    change (String c (s +:+ EmptyString) = String c s). by rewrite IH.
Qed.

End RagMore.

(** ** Delivery of frames through the registry *)

Module ChatMore.
Import Py VectorStore Chat.

(** Frames for a connection that is not registered are dropped. *)
Lemma deliver_unregistered n writes closes
    (frames : list (string * ChatResponse)) cid env :
  Forall (λ p, p.1 = cid) frames →
  Registry.active_connections (Registry.manager env) !! cid = None →
  ∃ env',
    deliver n writes closes frames env =
    (Ret (replicate (List.length frames) false), env') ∧
    Registry.manager env' = Registry.manager env.
Proof.
  intros Hall. revert n env.
  induction Hall as [|[cid' f] frames Hcid _ IH]; intros n env Hnone.
  - by exists env.
  - simpl in Hcid. subst cid'. cbn [deliver]. py_unfold.
    rewrite RegistryFacts.send_message_run, Hnone.
    destruct (IH (S n) (Registry.logged (Registry.WarningNonExistent cid) env))
      as (env' & Hrun & Hm); [done|].
    exists env'. by rewrite Hrun.
Qed.

(** X11. When the frames of a turn go to a registered connection and the
    write of the k-th is the first to fail, the frames before it are
    delivered, that one and all later ones are not, and the registry is
    left as [disconnect] of the connection leaves it: the connection is no
    longer registered. *)
Theorem deliver_stops_at_failed_write writes closes
    (frames : list (string * ChatResponse)) cid env k e n :
  Forall (λ p, p.1 = cid) frames →
  is_Some (Registry.active_connections (Registry.manager env) !! cid) →
  (∀ j, (j < k)%nat → writes (n + j)%nat = Ret tt) →
  writes (n + k)%nat = Raise e →
  (k < List.length frames)%nat →
  ∃ env',
    deliver n writes closes frames env =
    (Ret (replicate k true ++ replicate (List.length frames - k) false)%list,
     env') ∧
    Registry.active_connections (Registry.manager env') !! cid = None ∧
    Registry.manager env' =
    Registry.manager (Registry.disconnect (closes (n + k)%nat) cid None env).2.
Proof.
  intros Hall [ws Hws]. revert n frames Hall.
  induction k as [|k IH]; intros n frames Hall Hok Hfail Hlen.
  - destruct Hall as [|[cid' f] frames Hcid Hall]; [simpl in Hlen; lia|].
    simpl in Hcid. subst cid'. cbn [deliver]. py_unfold.
    rewrite Nat.add_0_r in Hfail |- *.
    rewrite RegistryFacts.send_message_run, Hws, Hfail.
    set (env1 := Registry.disconnected (closes n) cid None
                   (Registry.logged (Registry.write_failure cid e) env)).
    assert (Hgone : Registry.active_connections (Registry.manager env1) !! cid
                    = None) by apply lookup_delete_eq.
    destruct (deliver_unregistered (S n) writes closes frames cid env1 Hall Hgone)
      as (env' & Hrun & Hm).
    exists env'. rewrite Hrun. cbn [List.length replicate app].
    rewrite Nat.sub_0_r. split; [done|]. rewrite Hm. split; [done|].
    by rewrite RegistryFacts.disconnect_run.
  - destruct Hall as [|[cid' f] frames Hcid Hall]; [simpl in Hlen; lia|].
    simpl in Hcid. subst cid'. cbn [deliver]. py_unfold.
    rewrite RegistryFacts.send_message_run, Hws.
    pose proof (Hok 0%nat ltac:(lia)) as H0. rewrite Nat.add_0_r in H0.
    rewrite H0.
    destruct (IH (S n) frames Hall) as (env' & Hrun & Hgone & Hm).
    + intros j Hj. replace (S n + j)%nat with (n + S j)%nat by lia.
      apply Hok. lia.
    + by replace (S n + k)%nat with (n + S k)%nat by lia.
    + simpl in Hlen. lia.
    + exists env'. rewrite Hrun. split; [done|]. split; [done|].
      by replace (n + S k)%nat with (S n + k)%nat by lia.
Qed.

Lemma deliver_stops_at_failed_write_witness :
  let ws := {| Registry.ws_handle := 5 |} in
  let env := (Registry.connect "c1" (Ret tt) ws 1 Registry.start).2 in
  let frame := λ i text,
    {| id := i; type := ASSISTANT; content := text; timestamp := 0;
       metadata := None; conversation_id := Some 1; user_id := None;
       is_partial := true; query_id := None; sources := None |} in
  let frames := [("c1", frame "m1" "0123456789");
                 ("c1", frame "m2" "abcdefghij");
                 ("c1", frame "m3" "k")] in
  let writes := λ n : nat, if decide (n = 1%nat)
                           then Raise (Exn WebSocketDisconnect "gone")
                           else Ret tt in
  (deliver 0 writes (λ _, Ret tt) frames env).1 = Ret [true; false; false].
Proof.
  intros ws env frame frames writes.
  destruct (deliver_stops_at_failed_write
              writes (λ _, Ret tt) frames "c1" env 1
              (Exn WebSocketDisconnect "gone") 0)
    as (env' & Hrun & _).
  - unfold frames. repeat constructor.
  - by vm_compute; eauto.
  - intros j Hj. unfold writes. simpl. rewrite decide_False; [done|lia].
  - done.
  - simpl. lia.
  - by rewrite Hrun.
Defined.

End ChatMore.

(** ** File types and document loading *)

Module IngestFacts.
Import Py VectorStore Ingest.
#[local] Set Warnings "-notation-for-abbreviation".

Lemma lower_char_idempotent c : lower_char (lower_char c) = lower_char c.
Proof. by destruct c as [[] [] [] [] [] [] [] []]. Qed.

Lemma lower_idempotent s : lower (lower s) = lower s.
Proof.
  induction s as [|c s IH]; simpl; [done|].
  by rewrite lower_char_idempotent, IH.
Qed.

Lemma allowed_extensions_lookup ext mime :
  allowed_extensions !! ext = Some mime →
  (ext = ".pdf" ∧ mime = "application/pdf") ∨
  (ext = ".txt" ∧ mime = "text/plain") ∨
  (ext = ".docx" ∧ mime = docx_type).
Proof.
  unfold allowed_extensions. intros Hl.
  apply lookup_insert_Some in Hl as [[<- <-]|[_ Hl]]; [by right; right|].
  apply lookup_insert_Some in Hl as [[<- <-]|[_ Hl]]; [by right; left|].
  apply lookup_insert_Some in Hl as [[<- <-]|[_ Hl]]; [by left|].
  by rewrite lookup_empty in Hl.
Qed.

Section Facts.
Variable path_suffix : string → string.
Variable path_exists : string → bool.
Variable file_not_found : string → exn.
Variable run_loader : Loader → string → result (string * gmap string MetaValue).

Notation get_file_extension := (get_file_extension path_suffix).
Notation validate_file_extension := (validate_file_extension path_suffix).
Notation get_content_type := (get_content_type path_suffix).
Notation load_document :=
  (load_document path_suffix path_exists file_not_found run_loader).

Lemma validate_file_extension_true path :
  validate_file_extension path = true →
  ∃ mime, allowed_extensions !! get_file_extension path = Some mime.
Proof.
  unfold Ingest.validate_file_extension, contains.
  intros Hv. apply bool_decide_eq_true in Hv as [mime Hm]. by exists mime.
Qed.

(** X13. The extension tables agree: a file name that
    [validate_file_extension] accepts has a MIME type in [get_content_type]
    (the one of the allowed table), and [load_document] of an existing
    file with that name runs one of its loaders, so that its own
    "Unsupported file type" error cannot occur; lower-casing the extension
    a second time changes nothing. *)
Theorem validated_file_has_loader path :
  validate_file_extension path = true →
  ∃ mime loader,
    allowed_extensions !! get_file_extension path = Some mime ∧
    get_content_type path = Some mime ∧
    loader_for (lower (get_file_extension path)) = Some loader ∧
    (path_exists path = true → load_document path = run_loader loader path).
Proof.
  intros Hv. apply validate_file_extension_true in Hv as [mime Hm].
  exists mime.
  assert (∃ loader, get_content_type path = Some mime ∧
            loader_for (lower (get_file_extension path)) = Some loader)
    as (loader & Hc & Hl).
  { unfold Ingest.get_content_type, Ingest.get_file_extension in *.
    rewrite lower_idempotent.
    destruct (allowed_extensions_lookup _ _ Hm) as [[-> ->]|[[-> ->]|[-> ->]]];
      by eexists. }
  exists loader. repeat split; [done..|].
  intros He. unfold Ingest.load_document. by rewrite He, Hl.
Qed.

End Facts.

Lemma validated_file_has_loader_witness :
  let suffix : string → string := λ _, ".PDF" in
  let loading : Loader → string → result (string * gmap string MetaValue) :=
    λ loader _, match loader with
                | PdfLoader => Ret ("text of the report", ∅)
                | _ => Raise (Exn RuntimeError "not a PDF")
                end in
  validate_file_extension suffix "Report.PDF" = true ∧
  ∃ mime loader,
    allowed_extensions !! get_file_extension suffix "Report.PDF" = Some mime ∧
    get_content_type suffix "Report.PDF" = Some mime ∧
    loader_for (lower (get_file_extension suffix "Report.PDF")) = Some loader ∧
    ((λ _, true) "Report.PDF" = true →
     load_document suffix (λ _, true) (λ p, Exn RuntimeError p) loading "Report.PDF"
     = loading loader "Report.PDF").
Proof.
  intros suffix loading. split; [by vm_compute|].
  apply (validated_file_has_loader suffix (λ _, true) (λ p, Exn RuntimeError p)
           loading "Report.PDF").
  by vm_compute.
Defined.

End IngestFacts.
